(** * Perforated sheet with hexagonal holes: grid layout and hole enumeration

    A shallow embedding of the layout arithmetic of
    [box_1000x500x20_20250514_457e4a.py]: the number of columns and rows of
    the staggered grid, the centring margins, the enumeration of the hole
    centres with its boundary check, and the boolean cut.

    The script computes on Python floats (IEEE 754 binary64) and Python
    integers.  The script's arithmetic is written once, over an interface
    [PyNum] of the float operations it uses, and read at two instances:
    [B64], binary64 with round-to-nearest-even as specified by the kernel's
    [SpecFloat], which is what the script runs on; and [Exact], the
    rational numbers, the "positive reals" of the specification, on which
    no operation rounds. *)

From Stdlib Require Import ZArith List Bool Lia QArith Qround Qabs Lqa Sorted.
From Stdlib Require Import SpecFloat.
Import ListNotations.

Set Implicit Arguments.
Local Open Scope Z_scope.

(** ** Exceptions

    A Python expression that raises ([int] of an infinity,
    division by a zero float) is [None]. *)

Definition bind {A B : Type} (m : option A) (k : A -> option B) : option B :=
  match m with
  | Some a => k a
  | None => None
  end.

Notation "x <- m ;; k" := (bind m (fun x => k))
  (at level 61, m at next level, right associativity).

(** ** The float operations of the script *)

Class PyNum (F : Type) : Type := {
  fadd : F -> F -> F;             (* x + y *)
  fsub : F -> F -> F;             (* x - y *)
  fmul : F -> F -> F;             (* x * y *)
  fdiv : F -> F -> F;             (* x / y for a divisor that is not zero *)
  fneg : F -> F;                  (* -x *)
  fltb : F -> F -> bool;          (* x < y *)
  fleb : F -> F -> bool;          (* x <= y *)
  fis_zero : F -> bool;           (* x == 0.0 *)
  of_int : Z -> F;                (* an int operand of a float operation *)
  to_int : F -> option Z          (* int(x): truncation towards zero *)
}.

Section Script.

Context {F : Type} {num : PyNum F}.

(** [x >= y] *)
Definition fgeb (x y : F) : bool := fleb y x.

(** [x / y]: raises ZeroDivisionError when [y] is zero. *)
Definition py_div (x y : F) : option F :=
  if fis_zero y then None else Some (fdiv x y).

(** The literals [2.0] and [0.0]. *)
Definition lit_2_0 : F := of_int 2.
Definition lit_0_0 : F := of_int 0.

(** [range(n)] *)
Definition range (n : Z) : list Z := map Z.of_nat (seq 0 (Z.to_nat n)).

(** *** Parameters (lines 19-29) *)

Record Params : Type := {
  plate_length : F;
  plate_width : F;
  plate_thickness : F;
  hole_diameter : F;
  pitch_x : F;
  pitch_y : F;
  tol : F
}.

Definition hole_radius (P : Params) : F := fdiv (hole_diameter P) lit_2_0.

(** *** Number of holes and margins (lines 34-52) *)

Record Layout : Type := {
  n_cols : Z;
  margin_x : F;
  n_rows : Z;
  margin_y : F
}.

Definition layout (P : Params) : option Layout :=
  n_cols <-
    (if fltb (plate_length P) (hole_diameter P) then Some 0
     else
       q <- py_div (fsub (plate_length P) (hole_diameter P)) (pitch_x P) ;;
       k <- to_int q ;;
       Some (k + 1)) ;;
  let margin_x :=
    if 0 <? n_cols then
      let span_x := fadd (fmul (of_int (n_cols - 1)) (pitch_x P)) (hole_diameter P) in
      fdiv (fsub (plate_length P) span_x) lit_2_0
    else fdiv (plate_length P) lit_2_0 in
  n_rows <-
    (if fltb (plate_width P) (hole_diameter P) then Some 0
     else
       q <- py_div (fsub (plate_width P) (hole_diameter P)) (pitch_y P) ;;
       k <- to_int q ;;
       Some (k + 1)) ;;
  let margin_y :=
    if 0 <? n_rows then
      let span_y := fadd (fmul (of_int (n_rows - 1)) (pitch_y P)) (hole_diameter P) in
      fdiv (fsub (plate_width P) span_y) lit_2_0
    else fdiv (plate_width P) lit_2_0 in
  Some {| n_cols := n_cols; margin_x := margin_x;
          n_rows := n_rows; margin_y := margin_y |}.

(** The rule of one axis, as lines 34-42 have it for X and lines 44-52 for Y:
    the count, then the span and the margin. *)

Definition axis_count (len d pitch : F) : option Z :=
  if fltb len d then Some 0
  else
    q <- py_div (fsub len d) pitch ;;
    k <- to_int q ;;
    Some (k + 1).

Definition axis_span (n : Z) (d pitch : F) : F :=
  fadd (fmul (of_int (n - 1)) pitch) d.

Definition axis_margin (len d pitch : F) (n : Z) : F :=
  if 0 <? n then fdiv (fsub len (axis_span n d pitch)) lit_2_0
  else fdiv len lit_2_0.

(** *** The staggered grid (lines 86-97) *)

Definition cy_of (P : Params) (L : Layout) (row : Z) : F :=
  fadd (fadd (margin_y L) (hole_radius P)) (fmul (of_int row) (pitch_y P)).

Definition x_offset (P : Params) (row : Z) : F :=
  if row mod 2 =? 1 then fdiv (pitch_x P) lit_2_0 else lit_0_0.

Definition cx_of (P : Params) (L : Layout) (row col : Z) : F :=
  fadd (fadd (fadd (margin_x L) (hole_radius P)) (fmul (of_int col) (pitch_x P)))
       (x_offset P row).

(** The four conjuncts of the boundary check (lines 94-95). *)

Definition x_low_ok (P : Params) (cx : F) : bool :=
  fgeb (fsub cx (hole_radius P)) (fneg (tol P)).

Definition x_high_ok (P : Params) (cx : F) : bool :=
  fleb (fadd cx (hole_radius P)) (fadd (plate_length P) (tol P)).

Definition y_low_ok (P : Params) (cy : F) : bool :=
  fgeb (fsub cy (hole_radius P)) (fneg (tol P)).

Definition y_high_ok (P : Params) (cy : F) : bool :=
  fleb (fadd cy (hole_radius P)) (fadd (plate_width P) (tol P)).

Definition boundary_check (P : Params) (cx cy : F) : bool :=
  x_low_ok P cx && x_high_ok P cx && y_low_ok P cy && y_high_ok P cy.

(** The two nested loops.  [mk row col cx cy] is what an accepted position
    appends to the list: the script appends [make_hexagon_hole cx cy
    hole_radius plate_thickness]. *)

Definition hole_loop {A : Type} (mk : Z -> Z -> F -> F -> A)
    (P : Params) (L : Layout) : list A :=
  fold_left
    (fun acc row =>
       let cy := cy_of P L row in
       fold_left
         (fun acc col =>
            let cx := cx_of P L row col in
            if boundary_check P cx cy then acc ++ [mk row col cx cy] else acc)
         (range (n_cols L)) acc)
    (range (n_rows L)) [].

(** The accepted centres, the grid indices of the accepted positions, and
    all the grid positions the loops visit. *)

Definition hole_centers (P : Params) (L : Layout) : list (F * F) :=
  hole_loop (fun _ _ cx cy => (cx, cy)) P L.

Definition hole_indices (P : Params) (L : Layout) : list (Z * Z) :=
  hole_loop (fun row col _ _ => (row, col)) P L.

Definition grid_positions (L : Layout) : list (Z * Z) :=
  flat_map (fun row => map (fun col => (row, col)) (range (n_cols L)))
           (range (n_rows L)).

(** The acceptance test of a grid position, and what the loop appends there. *)
Definition accepts (P : Params) (L : Layout) (rc : Z * Z) : bool :=
  boundary_check P (cx_of P L (fst rc) (snd rc)) (cy_of P L (fst rc)).

Definition at_pos {A : Type} (mk : Z -> Z -> F -> F -> A)
    (P : Params) (L : Layout) (rc : Z * Z) : A :=
  mk (fst rc) (snd rc) (cx_of P L (fst rc) (snd rc)) (cy_of P L (fst rc)).

(** Row-major order on grid indices. *)
Definition row_major (a b : Z * Z) : Prop :=
  fst a < fst b \/ (fst a = fst b /\ snd a < snd b).

(** The script's hole enumeration as a function of its parameters. *)
Definition hole_sequence (P : Params) : option (list (F * F)) :=
  L <- layout P ;; Some (hole_centers P L).

(** *** The geometry kernel and the boolean cut (lines 57-62, 67-81, 102-106)

    The kernel's shapes and operations are parameters: the script only
    calls them.  [KernelCall] records the calls of the boolean step. *)

Variable Shape : Type.
Variable makeBox : F -> F -> F -> F * F * F -> Shape.
Variable make_hexagon_hole : F -> F -> F -> F -> Shape.
Variable makeCompound : list Shape -> Shape.
Variable cut : Shape -> Shape -> Shape.

Inductive KernelCall : Type :=
  | CallMakeCompound (tools : list Shape)
  | CallCut (base tool : Shape).

(** Lines 57-62: the box at the origin. *)
Definition base_plate (P : Params) : Shape :=
  makeBox (plate_length P) (plate_width P) (plate_thickness P)
          (lit_0_0, lit_0_0, lit_0_0).

Definition hole_tools (P : Params) (L : Layout) : list Shape :=
  hole_loop (fun _ _ cx cy =>
               make_hexagon_hole cx cy (hole_radius P) (plate_thickness P)) P L.

(** Lines 102-106.  [if hole_tools:] takes the empty list for false. *)
Definition boolean_cut (base : Shape) (tools : list Shape)
    : Shape * list KernelCall :=
  match tools with
  | [] => (base, [])
  | _ :: _ =>
      let compound_holes := makeCompound tools in
      (cut base compound_holes,
       [CallMakeCompound tools; CallCut base compound_holes])
  end.

(** The script from the layout to [result_shape], with the calls of the
    boolean step. *)
Definition generated_model (P : Params) : option (Shape * list KernelCall) :=
  L <- layout P ;;
  Some (boolean_cut (base_plate P) (hole_tools P L)).

Definition result_shape (P : Params) : option Shape :=
  option_map fst (generated_model P).

End Script.

Arguments Params F : clear implicits.
Arguments Layout F : clear implicits.

(** ** Binary64 *)

Module B64.

Definition prec : Z := 53.
Definition emax : Z := 1024.

Definition float : Type := spec_float.

(** [float(z)] for a Python int, as an int operand of a float operation is
    converted: the nearest binary64 value.  (Python raises OverflowError
    where this gives an infinity; the script only converts [n - 1], [row]
    and [col], which are bounded by a finite float.) *)
Definition of_Z (z : Z) : float := binary_normalize prec emax z 0 false.

(** [int(x)]: the integer part, towards zero; an infinity raises
    OverflowError and a NaN ValueError. *)
Definition trunc (x : float) : option Z :=
  match x with
  | S754_zero _ => Some 0
  | S754_finite s m e =>
      let a := match e with
               | Zneg p => Z.shiftr (Zpos m) (Zpos p)
               | _ => Z.shiftl (Zpos m) e
               end in
      Some (if s then - a else a)
  | S754_infinity _ => None
  | S754_nan => None
  end.

(** [math.floor(x)], for comparison with [int(x)]. *)
Definition floor (x : float) : option Z :=
  match x with
  | S754_zero _ => Some 0
  | S754_finite s m e =>
      Some (match e with
            | Zneg p =>
                if s then - ((Zpos m + 2 ^ Zpos p - 1) / 2 ^ Zpos p)
                else Zpos m / 2 ^ Zpos p
            | _ => if s then - (Zpos m * 2 ^ e) else Zpos m * 2 ^ e
            end)
  | S754_infinity _ => None
  | S754_nan => None
  end.

Definition is_zero (x : float) : bool :=
  match x with
  | S754_zero _ => true
  | _ => false
  end.

#[global] Instance num : PyNum float := {|
  fadd := SFadd prec emax;
  fsub := SFsub prec emax;
  fmul := SFmul prec emax;
  fdiv := SFdiv prec emax;
  fneg := SFopp;
  fltb := SFltb;
  fleb := SFleb;
  fis_zero := is_zero;
  of_int := of_Z;
  to_int := trunc
|}.

(** A decimal literal [n / 10^k]: Python reads it as the binary64 value
    nearest to the fraction, which is what the correctly rounded quotient of
    the two exactly represented integers is. *)
Definition dec (n : Z) (k : nat) : float :=
  SFdiv prec emax (of_Z n) (of_Z (10 ^ Z.of_nat k)).

(** The value of a finite float, as a rational. *)
Definition to_Q (x : float) : Q :=
  match x with
  | S754_finite s m e =>
      let a := match e with
               | Zneg p => Qmake (Zpos m) (2 ^ p)
               | _ => inject_Z (Zpos m * 2 ^ e)
               end in
      if s then Qopp a else a
  | _ => 0%Q
  end.

(** A float a program can hold: canonical mantissa and exponent. *)
Definition valid (x : float) : bool := valid_binary prec emax x.

(** Positive and finite. *)
Definition is_positive (x : float) : bool :=
  match x with
  | S754_finite false _ _ => valid x
  | _ => false
  end.

(** Zero or a finite number: neither an infinity nor a NaN. *)
Definition is_finite (x : float) : bool :=
  match x with
  | S754_zero _ => true
  | S754_finite _ _ _ => true
  | _ => false
  end.

(** The rule of one axis in the specification's words: no hole fits when
    [len < d]; otherwise [floor((len - d) / pitch) + 1] holes, and the margin
    centres their span. *)
Definition spec_axis (len d pitch : float) : option (Z * float) :=
  if fltb len d then Some (0, fdiv len lit_2_0)
  else
    k <- floor (fdiv (fsub len d) pitch) ;;
    let n := k + 1 in
    let span := fadd (fmul (of_int (n - 1)) pitch) d in
    Some (n, fdiv (fsub len span) lit_2_0).

Definition spec_layout (P : Params float) : option (Layout float) :=
  x <- spec_axis (plate_length P) (hole_diameter P) (pitch_x P) ;;
  y <- spec_axis (plate_width P) (hole_diameter P) (pitch_y P) ;;
  Some {| n_cols := fst x; margin_x := snd x;
          n_rows := fst y; margin_y := snd y |}.

(** Neither a negative number nor minus infinity. *)
Definition not_negative (x : float) : bool :=
  match x with
  | S754_finite true _ _ => false
  | S754_infinity true => false
  | _ => true
  end.

(** The constants of the script (lines 19-29). *)
Definition script_params : Params float := {|
  plate_length := dec 1000 1;
  plate_width := dec 500 1;
  plate_thickness := dec 20 1;
  hole_diameter := dec 50 1;
  pitch_x := dec 100 1;
  pitch_y := dec 100 1;
  tol := dec 1 6
|}.

End B64.

(** ** Exact arithmetic *)

Module Exact.

(** [int(x)] of a rational: the quotient towards zero. *)
Definition trunc (x : Q) : option Z := Some (Z.quot (Qnum x) (Zpos (Qden x))).

#[global] Instance num : PyNum Q := {|
  fadd := Qplus;
  fsub := Qminus;
  fmul := Qmult;
  fdiv := Qdiv;
  fneg := Qopp;
  fltb := fun x y => negb (Qle_bool y x);
  fleb := Qle_bool;
  fis_zero := fun x => Qeq_bool x 0;
  of_int := inject_Z;
  to_int := trunc
|}.

(** The rule of one axis in the specification's words, over the rationals. *)
Definition spec_axis (len d pitch : Q) : Z * Q :=
  if Qle_bool d len then
    let n := Qfloor ((len - d) / pitch) + 1 in
    let span := (inject_Z (n - 1) * pitch + d)%Q in
    (n, ((len - span) / 2)%Q)
  else (0, (len / 2)%Q).

Definition spec_layout (P : Params Q) : Layout Q :=
  let x := spec_axis (plate_length P) (hole_diameter P) (pitch_x P) in
  let y := spec_axis (plate_width P) (hole_diameter P) (pitch_y P) in
  {| n_cols := fst x; margin_x := snd x;
     n_rows := fst y; margin_y := snd y |}.

End Exact.

(** ** Example parameters *)

Module Samples.

Import B64.

(** The layout the script computes from its constants. *)
Definition script_layout : Layout float := {|
  n_cols := 10; margin_x := dec 25 1;
  n_rows := 5; margin_y := dec 25 1
|}.

(** A plate shorter than the hole: 3 x 50, hole 5, pitch 10. *)
Definition narrow_plate : Params float := {|
  plate_length := dec 30 1; plate_width := dec 500 1; plate_thickness := dec 20 1;
  hole_diameter := dec 50 1; pitch_x := dec 100 1; pitch_y := dec 100 1;
  tol := dec 1 6
|}.

Definition narrow_layout : Layout float := {|
  n_cols := 0; margin_x := dec 15 1;
  n_rows := 5; margin_y := dec 25 1
|}.

(** 0.9 x 0.9, hole 0.3, pitch 0.2. *)
Definition tenths_plate : Params float := {|
  plate_length := dec 9 1; plate_width := dec 9 1; plate_thickness := dec 20 1;
  hole_diameter := dec 3 1; pitch_x := dec 2 1; pitch_y := dec 2 1;
  tol := dec 1 6
|}.

(** 12000000000000.1 x 12000000000000.1, hole 0.1, pitch 6000000000000.0. *)
Definition huge_plate : Params float := {|
  plate_length := dec 120000000000001 1; plate_width := dec 120000000000001 1;
  plate_thickness := dec 20 1;
  hole_diameter := dec 1 1;
  pitch_x := dec 6000000000000 0; pitch_y := dec 6000000000000 0;
  tol := dec 1 6
|}.

Definition huge_layout : Layout float := {|
  n_cols := 3; margin_x := S754_zero false;
  n_rows := 3; margin_y := S754_zero false
|}.

(** 10 x 10, hole 1, pitch 0.3. *)
Definition fine_pitch_plate : Params float := {|
  plate_length := dec 100 1; plate_width := dec 100 1; plate_thickness := dec 20 1;
  hole_diameter := dec 10 1; pitch_x := dec 3 1; pitch_y := dec 3 1;
  tol := dec 1 6
|}.

Definition fine_pitch_layout : Layout float := {|
  n_cols := 31; margin_x := S754_zero false;
  n_rows := 31; margin_y := S754_zero false
|}.

(** The script's constants as rationals. *)
Definition exact_script_params : Params Q := {|
  plate_length := 100; plate_width := 50; plate_thickness := 2;
  hole_diameter := 5; pitch_x := 10; pitch_y := 10;
  tol := 1 # 1000000
|}%Q.

Definition exact_script_layout : Layout Q := {|
  n_cols := 10; margin_x := (5 # 2)%Q;
  n_rows := 5; margin_y := (5 # 2)%Q
|}.

(** A kernel that builds terms: each operation records its arguments. *)
#[warnings="-register-all"] Inductive SymShape : Type :=
  | SymHexagon (cx cy radius thickness : float)
  | SymBox (length width thickness : float) (origin : float * float * float)
  | SymCompound (tools : list SymShape)
  | SymCut (base tool : SymShape).

End Samples.

(** ** The hexagon of one hole (lines 67-81) *)

Module Hexagon.

Section Hexagon.

Context {F : Type} {num : PyNum F}.

(** [math.radians], [math.cos] and [math.sin]. *)
Variable radians : F -> F.
Variable cos : F -> F.
Variable sin : F -> F.

(** The kernel's wires, faces and solids; a vector is its three
    coordinates. *)
Variable Wire : Type.
Variable Face : Type.
Variable Shape : Type.
Variable makePolygon : list (F * F * F) -> Wire.
Variable makeFace : Wire -> Face.
Variable extrude : Face -> F * F * F -> Shape.

(** [range(start, stop, step)]; a zero step raises ValueError and is not
    used. *)
Definition range_step (start stop step : Z) : list Z :=
  let n := if 0 <? step then (stop - start + step - 1) / step
           else if step <? 0 then (start - stop - step - 1) / (- step)
           else 0 in
  map (fun i => start + Z.of_nat i * step) (seq 0 (Z.to_nat n)).

(** The body of the loop: the vertex at [angle_deg] degrees. *)
Definition hexagon_vertex (cx cy radius : F) (angle_deg : Z) : F * F * F :=
  let rad := radians (of_int angle_deg) in
  let x := fadd cx (fmul radius (cos rad)) in
  let y := fadd cy (fmul radius (sin rad)) in
  (x, y, lit_0_0).

Definition hexagon_points (cx cy radius : F) : list (F * F * F) :=
  fold_left
    (fun pts angle_deg => pts ++ [hexagon_vertex cx cy radius angle_deg])
    (range_step 0 (360 + 1) 60) [].

Definition make_hexagon_hole (cx cy radius thickness : F) : Shape :=
  let wire := makePolygon (hexagon_points cx cy radius) in
  let face := makeFace wire in
  let solid := extrude face (lit_0_0, lit_0_0, thickness) in
  solid.

End Hexagon.

(** The vertices of all the holes of a sheet, hole by hole. *)
Definition sheet_vertices {F : Type} {num : PyNum F} (radians cos sin : F -> F)
    (P : Params F) (L : Layout F) : list (list (F * F * F)) :=
  hole_loop (fun _ _ cx cy => hexagon_points radians cos sin cx cy (hole_radius P))
            P L.

(** Rational points of the unit circle, for a run in exact arithmetic:
    the point of parameter [t] is [((1 - t^2) / (1 + t^2), 2 t / (1 + t^2))]. *)
Definition rat_cos (t : Q) : Q := ((1 - t * t) / (1 + t * t))%Q.
Definition rat_sin (t : Q) : Q := (2 * t / (1 + t * t))%Q.
Definition rat_radians (t : Q) : Q := (t / 360)%Q.

End Hexagon.

(** ** The last column of the odd rows *)

Module Stagger.

(** Whether the staggered last column passes the end of the plate by more
    than the tolerance: [pitch_x / 2 > margin_x + tol]. *)
Definition staggered_end_rejected (P : Params Q) (L : Layout Q) : bool :=
  negb (Qle_bool (pitch_x P / 2) (margin_x L + tol P)).

End Stagger.

(** ** A plate of 1e18 *)

Module Extremes.

Import B64.

(** 1e18 x 1e18, hole 1, pitch 5e17: at this size the spacing of the
    floats is 128, far above the hole radius and the tolerance. *)
Definition corner_plate : Params float := {|
  plate_length := dec (10 ^ 18) 0; plate_width := dec (10 ^ 18) 0;
  plate_thickness := dec 20 1;
  hole_diameter := dec 10 1;
  pitch_x := dec (5 * 10 ^ 17) 0; pitch_y := dec (5 * 10 ^ 17) 0;
  tol := dec 1 6
|}.

Definition corner_layout : Layout float := {|
  n_cols := 3; margin_x := S754_zero false;
  n_rows := 3; margin_y := S754_zero false
|}.

End Extremes.

(** * Properties *)

(** ** The loops as a filter over the grid *)

Section LoopFacts.

Context {F : Type} {num : PyNum F}.

Lemma inner_loop_filter {A : Type} (g : Z -> A) (ok : Z -> bool) :
  forall (cols : list Z) (acc : list A),
    fold_left (fun acc col => if ok col then acc ++ [g col] else acc) cols acc
    = acc ++ map g (filter ok cols).
Proof.
  induction cols as [|c cols IH]; intros acc; simpl.
  - now rewrite app_nil_r.
  - rewrite IH. destruct (ok c); simpl; [now rewrite <- app_assoc | reflexivity].
Qed.

Lemma outer_loop_filter {A : Type} (g : Z -> Z -> A) (ok : Z -> Z -> bool)
    (cols : list Z) :
  forall (rows : list Z) (acc : list A),
    fold_left
      (fun acc row =>
         fold_left (fun acc col => if ok row col then acc ++ [g row col] else acc)
                   cols acc)
      rows acc
    = acc ++ map (fun rc => g (fst rc) (snd rc))
               (filter (fun rc => ok (fst rc) (snd rc))
                  (flat_map (fun row => map (fun col => (row, col)) cols) rows)).
Proof.
  induction rows as [|r rows IH]; intros acc; simpl.
  - now rewrite app_nil_r.
  - rewrite IH, inner_loop_filter, filter_app, map_app, app_assoc.
    f_equal. f_equal.
    clear IH. induction cols as [|c cols IHc]; simpl; [reflexivity|].
    destruct (ok r c); simpl; now rewrite IHc.
Qed.

Lemma hole_loop_filter {A : Type} (mk : Z -> Z -> F -> F -> A)
    (P : Params F) (L : Layout F) :
  hole_loop mk P L
  = map (at_pos mk P L) (filter (accepts P L) (grid_positions L)).
Proof.
  unfold hole_loop, grid_positions.
  exact (outer_loop_filter
           (fun row col => mk row col (cx_of P L row col) (cy_of P L row))
           (fun row col => boundary_check P (cx_of P L row col) (cy_of P L row))
           (range (n_cols L)) (range (n_rows L)) []).
Qed.

Lemma hole_indices_filter (P : Params F) (L : Layout F) :
  hole_indices P L = filter (accepts P L) (grid_positions L).
Proof.
  unfold hole_indices. rewrite hole_loop_filter.
  unfold at_pos. simpl.
  erewrite map_ext; [apply map_id|]. now intros [r c].
Qed.

Lemma hole_loop_indices {A : Type} (mk : Z -> Z -> F -> F -> A)
    (P : Params F) (L : Layout F) :
  hole_loop mk P L = map (at_pos mk P L) (hole_indices P L).
Proof. now rewrite hole_indices_filter, hole_loop_filter. Qed.

Lemma in_range (n i : Z) : In i (range n) <-> 0 <= i < n.
Proof.
  unfold range. rewrite in_map_iff. split.
  - intros [k [<- Hk]]. apply in_seq in Hk. lia.
  - intros H. exists (Z.to_nat i). split; [lia|]. apply in_seq. lia.
Qed.

Lemma range_nonpos (n : Z) : n <= 0 -> range n = [].
Proof.
  intros H. unfold range. destruct n; try reflexivity; lia.
Qed.

Lemma length_range (n : Z) : length (range n) = Z.to_nat n.
Proof. unfold range. now rewrite length_map, length_seq. Qed.

Lemma in_grid_positions (L : Layout F) (row col : Z) :
  In (row, col) (grid_positions L)
  <-> 0 <= row < n_rows L /\ 0 <= col < n_cols L.
Proof.
  unfold grid_positions. rewrite in_flat_map. split.
  - intros [r [Hr Hc]]. apply in_map_iff in Hc. destruct Hc as [c [E Hc]].
    inversion E; subst. apply in_range in Hr. apply in_range in Hc. tauto.
  - intros [Hr Hc]. exists row. split; [now apply in_range|].
    apply in_map_iff. exists col. split; [reflexivity | now apply in_range].
Qed.

Lemma in_hole_indices (P : Params F) (L : Layout F) (row col : Z) :
  In (row, col) (hole_indices P L)
  <-> (0 <= row < n_rows L /\ 0 <= col < n_cols L)
      /\ boundary_check P (cx_of P L row col) (cy_of P L row) = true.
Proof.
  rewrite hole_indices_filter, filter_In, in_grid_positions. reflexivity.
Qed.

Lemma in_hole_centers (P : Params F) (L : Layout F) (c : F * F) :
  In c (hole_centers P L)
  <-> exists row col,
        In (row, col) (hole_indices P L)
        /\ c = (cx_of P L row col, cy_of P L row).
Proof.
  unfold hole_centers. rewrite hole_loop_indices, in_map_iff. split.
  - intros [[r k] [E H]]. exists r, k. split; [exact H | now rewrite <- E].
  - intros [r [k [H E]]]. exists (r, k). split; [now rewrite E | exact H].
Qed.

Lemma sorted_app {A : Type} (R : A -> A -> Prop) (l1 l2 : list A) :
  StronglySorted R l1 -> StronglySorted R l2 ->
  (forall x y, In x l1 -> In y l2 -> R x y) ->
  StronglySorted R (l1 ++ l2).
Proof.
  induction l1 as [|a l1 IH]; intros S1 S2 H; simpl; [exact S2|].
  inversion S1; subst. constructor.
  - apply IH; auto. intros x y Hx Hy. apply H; [now right | exact Hy].
  - apply Forall_app. split; [assumption|].
    apply Forall_forall. intros y Hy. apply H; [now left | exact Hy].
Qed.

Lemma sorted_filter {A : Type} (R : A -> A -> Prop) (f : A -> bool) (l : list A) :
  StronglySorted R l -> StronglySorted R (filter f l).
Proof.
  induction 1 as [|a l S IH Fa]; simpl; [constructor|].
  destruct (f a); [|exact IH]. constructor; [exact IH|].
  apply Forall_forall. intros y Hy. apply filter_In in Hy.
  rewrite Forall_forall in Fa. now apply Fa.
Qed.

Lemma sorted_range (n : Z) : StronglySorted Z.lt (range n).
Proof.
  unfold range. generalize 0%nat as s.
  induction (Z.to_nat n) as [|k IH]; intros s; simpl; constructor.
  - apply IH.
  - apply Forall_forall. intros y Hy. apply in_map_iff in Hy.
    destruct Hy as [j [<- Hj]]. apply in_seq in Hj. lia.
Qed.

Lemma sorted_grid (cols : list Z) :
  StronglySorted Z.lt cols ->
  forall rows, StronglySorted Z.lt rows ->
  StronglySorted row_major
    (flat_map (fun row => map (fun col => (row, col)) cols) rows).
Proof.
  intros Sc. induction 1 as [|r rows Sr IH Fr]; simpl; [constructor|].
  apply sorted_app.
  - clear -Sc. induction Sc as [|c cols Sc IH Fc]; simpl; constructor; auto.
    apply Forall_forall. intros y Hy. apply in_map_iff in Hy.
    destruct Hy as [c' [<- Hc']]. rewrite Forall_forall in Fc.
    right. simpl. split; [reflexivity | now apply Fc].
  - exact IH.
  - intros x y Hx Hy. apply in_map_iff in Hx. destruct Hx as [c [<- _]].
    apply in_flat_map in Hy. destruct Hy as [r' [Hr' Hy]].
    apply in_map_iff in Hy. destruct Hy as [c' [<- _]].
    left. simpl. rewrite Forall_forall in Fr. now apply Fr.
Qed.

Lemma sorted_grid_positions (L : Layout F) :
  StronglySorted row_major (grid_positions L).
Proof. apply sorted_grid; apply sorted_range. Qed.

End LoopFacts.

Section ScriptFacts.

Context {F : Type} {num : PyNum F}.

Lemma layout_axes (P : Params F) :
  layout P
  = (nc <- axis_count (plate_length P) (hole_diameter P) (pitch_x P) ;;
     nr <- axis_count (plate_width P) (hole_diameter P) (pitch_y P) ;;
     Some {| n_cols := nc;
             margin_x := axis_margin (plate_length P) (hole_diameter P) (pitch_x P) nc;
             n_rows := nr;
             margin_y := axis_margin (plate_width P) (hole_diameter P) (pitch_y P) nr |}).
Proof. reflexivity. Qed.

Lemma layout_some (P : Params F) (L : Layout F) :
  layout P = Some L ->
  axis_count (plate_length P) (hole_diameter P) (pitch_x P) = Some (n_cols L)
  /\ axis_count (plate_width P) (hole_diameter P) (pitch_y P) = Some (n_rows L)
  /\ margin_x L = axis_margin (plate_length P) (hole_diameter P) (pitch_x P) (n_cols L)
  /\ margin_y L = axis_margin (plate_width P) (hole_diameter P) (pitch_y P) (n_rows L).
Proof.
  rewrite layout_axes.
  destruct (axis_count (plate_length P) _ _) as [nc|]; simpl; [|discriminate].
  destruct (axis_count (plate_width P) _ _) as [nr|]; simpl; [|discriminate].
  intros E. inversion E; subst; simpl. auto.
Qed.

(** Every centre the enumerator accepts passed the four comparisons of the
    boundary check, each evaluated as the script evaluates it. *)
Lemma accepted_center_within_bounds (P : Params F) (L : Layout F) (cx cy : F) :
  In (cx, cy) (hole_centers P L) ->
  fgeb (fsub cx (hole_radius P)) (fneg (tol P)) = true
  /\ fleb (fadd cx (hole_radius P)) (fadd (plate_length P) (tol P)) = true
  /\ fgeb (fsub cy (hole_radius P)) (fneg (tol P)) = true
  /\ fleb (fadd cy (hole_radius P)) (fadd (plate_width P) (tol P)) = true.
Proof.
  intros H. apply in_hole_centers in H. destruct H as [row [col [H E]]].
  apply in_hole_indices in H. destruct H as [_ H].
  inversion E; subst. unfold boundary_check in H.
  repeat (apply andb_true_iff in H; destruct H as [H ?]).
  unfold x_low_ok, x_high_ok, y_low_ok, y_high_ok in *. auto.
Qed.

(** C5. When [plate_length < hole_diameter] the column count is 0 (and the
    margin is [plate_length / 2]), so whatever the rows are, no grid position
    is visited and no hole is produced. *)
Theorem no_columns_no_holes (P : Params F) :
  fltb (plate_length P) (hole_diameter P) = true ->
  axis_count (plate_length P) (hole_diameter P) (pitch_x P) = Some 0
  /\ forall L : Layout F, layout P = Some L ->
       n_cols L = 0
       /\ grid_positions L = []
       /\ hole_centers P L = [].
Proof.
  intros Hlt.
  assert (Hc : axis_count (plate_length P) (hole_diameter P) (pitch_x P) = Some 0)
    by (unfold axis_count; now rewrite Hlt).
  split; [exact Hc|]. intros L HL.
  apply layout_some in HL. destruct HL as [H1 _].
  rewrite Hc in H1. inversion H1 as [H0]. clear H1.
  assert (G : grid_positions L = []).
  { unfold grid_positions. rewrite <- H0. simpl.
    induction (range (n_rows L)); simpl; auto. }
  repeat split; auto.
  unfold hole_centers. now rewrite hole_loop_filter, G.
Qed.

(** C7. The accepted centres are a function of the parameters: two runs on
    the same parameters give the same finite list; and the list is in
    row-major order: it is the list of the centres of the accepted grid
    indices, which increase strictly in (row, column) order. *)
Theorem hole_sequence_deterministic_row_major :
  (forall (P P' : Params F) (r r' : option (list (F * F))),
     P = P' -> hole_sequence P = r -> hole_sequence P' = r' -> r = r')
  /\ (forall (P : Params F) (L : Layout F),
        layout P = Some L ->
        hole_sequence P
        = Some (map (fun rc => (cx_of P L (fst rc) (snd rc), cy_of P L (fst rc)))
                    (hole_indices P L))
        /\ StronglySorted row_major (hole_indices P L)
        /\ incl (hole_indices P L) (grid_positions L)).
Proof.
  split.
  - intros P P' r r' -> H1 H2. congruence.
  - intros P L HL. unfold hole_sequence. rewrite HL. simpl.
    split; [|split].
    + f_equal. unfold hole_centers. now rewrite hole_loop_indices.
    + rewrite hole_indices_filter. apply sorted_filter, sorted_grid_positions.
    + rewrite hole_indices_filter. intros x Hx. now apply filter_In in Hx.
Qed.

Section Kernel.

Variable Shape : Type.
Variable makeBox : F -> F -> F -> F * F * F -> Shape.
Variable make_hexagon_hole : F -> F -> F -> F -> Shape.
Variable makeCompound : list Shape -> Shape.
Variable cut : Shape -> Shape -> Shape.

Lemma hole_tools_centers (P : Params F) (L : Layout F) :
  hole_tools make_hexagon_hole P L
  = map (fun c => make_hexagon_hole (fst c) (snd c) (hole_radius P) (plate_thickness P))
        (hole_centers P L).
Proof.
  unfold hole_tools, hole_centers. rewrite !hole_loop_filter, map_map.
  reflexivity.
Qed.

(** C8. With no accepted position the boolean step calls neither
    [makeCompound] nor [cut] and the result is the base plate itself; with
    at least one, the hole solids (one per accepted centre) are put in one
    compound, which one [cut] subtracts from the base plate. *)
Theorem boolean_cut_cases (P : Params F) (L : Layout F) :
  layout P = Some L ->
  let base := base_plate makeBox P in
  let tools := hole_tools make_hexagon_hole P L in
  (hole_centers P L = [] ->
     generated_model makeBox make_hexagon_hole makeCompound cut P
     = Some (base, [])
     /\ result_shape makeBox make_hexagon_hole makeCompound cut P = Some base)
  /\ (hole_centers P L <> [] ->
        generated_model makeBox make_hexagon_hole makeCompound cut P
        = Some (cut base (makeCompound tools),
                [CallMakeCompound tools; CallCut base (makeCompound tools)])
        /\ result_shape makeBox make_hexagon_hole makeCompound cut P
           = Some (cut base (makeCompound tools))
        /\ length tools = length (hole_centers P L)).
Proof.
  intros HL base tools. unfold result_shape, generated_model. rewrite HL.
  cbn [bind option_map]. fold base. fold tools.
  assert (E : length tools = length (hole_centers P L)).
  { unfold tools. now rewrite hole_tools_centers, length_map. }
  destruct (hole_centers P L) as [|c cs]; destruct tools as [|t ts];
    try discriminate E.
  - split; [auto | intros H; now elim H].
  - split; [discriminate|]. intros _. cbn [boolean_cut fst]. auto.
Qed.

End Kernel.

End ScriptFacts.

(** ** Binary64: the sign of a quotient of a difference *)

Module B64Facts.

Import B64.

Lemma digits2_bounds (m : positive) :
  2 ^ (Zpos (digits2_pos m) - 1) <= Zpos m < 2 ^ Zpos (digits2_pos m).
Proof.
  induction m as [m IH|m IH|]; simpl digits2_pos.
  - rewrite Pos2Z.inj_succ.
    replace (Z.succ (Zpos (digits2_pos m)) - 1)
      with (Z.succ (Zpos (digits2_pos m) - 1)) by lia.
    rewrite !Z.pow_succ_r by lia. lia.
  - rewrite Pos2Z.inj_succ.
    replace (Z.succ (Zpos (digits2_pos m)) - 1)
      with (Z.succ (Zpos (digits2_pos m) - 1)) by lia.
    rewrite !Z.pow_succ_r by lia. lia.
  - simpl. lia.
Qed.

Lemma iter_xO_pow2 (m k : positive) :
  Zpos (Pos.iter xO m k) = Zpos m * 2 ^ Zpos k.
Proof.
  induction k as [|k IH] using Pos.peano_ind.
  - simpl. lia.
  - rewrite Pos.iter_succ, Pos2Z.inj_succ, Z.pow_succ_r by lia.
    rewrite Pos2Z.inj_xO, IH. lia.
Qed.

Lemma is_positive_inv (x : float) :
  is_positive x = true ->
  exists m e, x = S754_finite false m e /\ bounded prec emax m e = true.
Proof.
  destruct x as [s|s| |[|] m e]; simpl; try discriminate.
  intros H. now exists m, e.
Qed.

Lemma bounded_digits (m : positive) (e : Z) :
  bounded prec emax m e = true ->
  Zpos (digits2_pos m) <= 53
  /\ -1074 <= e
  /\ (-1074 < e -> Zpos (digits2_pos m) = 53).
Proof.
  unfold bounded, canonical_mantissa, fexp, SpecFloat.emin, prec, emax.
  intros H. apply andb_true_iff in H. destruct H as [H _].
  apply Z.eqb_eq in H. lia.
Qed.

Lemma aligned_difference_nonneg (mx my : positive) (ex ey : Z) :
  bounded prec emax mx ex = true ->
  bounded prec emax my ey = true ->
  SFltb (S754_finite false mx ex) (S754_finite false my ey) = false ->
  0 <= Zpos (fst (shl_align mx ex (Z.min ex ey)))
       - Zpos (fst (shl_align my ey (Z.min ex ey))).
Proof.
  intros Bx By Hlt. unfold SFltb, SFcompare in Hlt.
  destruct (Z.compare_spec ex ey) as [E|E|E].
  - subst ey. rewrite Z.min_id. unfold shl_align. rewrite Z.sub_diag. cbn [fst].
    change (Pos.compare_cont Eq mx my) with (Pos.compare mx my) in Hlt.
    destruct (Pos.compare_spec mx my); try discriminate; lia.
  - discriminate.
  - rewrite Z.min_r by lia. unfold shl_align at 2. rewrite Z.sub_diag. cbn [fst].
    unfold shl_align. destruct (ey - ex) as [|k|k] eqn:Ek; try lia.
    cbn [fst]. rewrite iter_xO_pow2.
    apply bounded_digits in Bx. apply bounded_digits in By.
    destruct Bx as [_ [_ Dx]]. destruct By as [Dy [Ly _]].
    pose proof (digits2_bounds mx) as Hx. pose proof (digits2_bounds my) as Hy.
    rewrite Dx in Hx by lia.
    assert (Hk : 2 ^ 1 <= 2 ^ Zpos k) by (apply Z.pow_le_mono_r; lia).
    assert (Hd : 2 ^ Zpos (digits2_pos my) <= 2 ^ 53)
      by (apply Z.pow_le_mono_r; lia).
    change (2 ^ 1) with 2 in Hk. change (53 - 1) with 52 in Hx.
    change (2 ^ 53) with (2 * 2 ^ 52) in Hd.
    nia.
Qed.

Lemma binary_round_aux_not_negative (m e : Z) (l : location) :
  not_negative (binary_round_aux prec emax false m e l) = true.
Proof.
  unfold binary_round_aux.
  destruct (shr_fexp prec emax m e l) as [mrs' e'].
  destruct (shr_fexp prec emax _ e' loc_Exact) as [mrs'' e''].
  destruct (shr_m mrs''); try reflexivity.
  now destruct (e'' <=? emax - prec).
Qed.

Lemma sub_not_negative (x y : float) :
  is_positive x = true -> is_positive y = true -> SFltb x y = false ->
  not_negative (SFsub prec emax x y) = true.
Proof.
  intros Hx Hy Hlt.
  apply is_positive_inv in Hx. destruct Hx as [mx [ex [-> Bx]]].
  apply is_positive_inv in Hy. destruct Hy as [my [ey [-> By]]].
  pose proof (aligned_difference_nonneg mx my ex ey Bx By Hlt) as D.
  unfold SFsub. unfold cond_Zopp.
  destruct (Zpos (fst (shl_align mx ex (Z.min ex ey)))
            - Zpos (fst (shl_align my ey (Z.min ex ey)))) as [|d|d] eqn:Ed.
  - reflexivity.
  - unfold binary_normalize, binary_round.
    destruct (shl_align d (Z.min ex ey) _) as [mz ez].
    apply binary_round_aux_not_negative.
  - lia.
Qed.

Lemma div_not_negative (x y : float) :
  not_negative x = true -> is_positive y = true ->
  not_negative (SFdiv prec emax x y) = true.
Proof.
  intros Hx Hy.
  apply is_positive_inv in Hy. destruct Hy as [my [ey [-> By]]].
  destruct x as [s|[|]| |[|] m e]; try reflexivity; try discriminate Hx.
  unfold SFdiv.
  destruct (SFdiv_core_binary prec emax (Zpos m) e (Zpos my) ey) as [[mz ez] lz].
  apply binary_round_aux_not_negative.
Qed.

(** On a float that is not negative, [int] and [math.floor] agree, and the
    result is not negative. *)
Lemma trunc_floor (x : float) :
  not_negative x = true ->
  trunc x = floor x /\ forall k, trunc x = Some k -> 0 <= k.
Proof.
  destruct x as [s|[|]| |[|] m e]; cbn [not_negative trunc floor];
    try discriminate; intros _.
  - split; [reflexivity|]. intros k [= <-]. lia.
  - split; [reflexivity | discriminate].
  - split; [reflexivity | discriminate].
  - assert (E : forall a b : Z, 0 <= a -> a = b ->
                 Some a = Some b /\ forall k, Some a = Some k -> 0 <= k).
    { intros a b Ha <-. split; [reflexivity|]. intros k [= <-]. exact Ha. }
    destruct e as [|p|p]; apply E.
    + apply Z.shiftl_nonneg. lia.
    + apply Z.shiftl_mul_pow2. lia.
    + apply Z.shiftl_nonneg. lia.
    + apply Z.shiftl_mul_pow2. lia.
    + apply Z.shiftr_nonneg. lia.
    + apply Z.shiftr_div_pow2. lia.
Qed.

Lemma quotient_not_negative (len d pitch : float) :
  is_positive len = true -> is_positive d = true -> is_positive pitch = true ->
  SFltb len d = false ->
  not_negative (SFdiv prec emax (SFsub prec emax len d) pitch) = true.
Proof.
  intros Hl Hd Hp Hlt. apply div_not_negative; [|exact Hp].
  now apply sub_not_negative.
Qed.

Lemma positive_not_zero (x : float) : is_positive x = true -> is_zero x = false.
Proof. destruct x as [s|s| |[|] m e]; simpl; auto; discriminate. Qed.

(** The count of one axis is 0 when the hole does not fit, and at least 1
    whenever it is computed otherwise. *)
Lemma axis_count_positive (len d pitch : float) (n : Z) :
  is_positive len = true -> is_positive d = true -> is_positive pitch = true ->
  SFltb len d = false ->
  axis_count len d pitch = Some n -> 1 <= n.
Proof.
  intros Hl Hd Hp Hlt. unfold axis_count, py_div. simpl.
  rewrite Hlt, (positive_not_zero _ Hp). simpl.
  pose proof (quotient_not_negative _ _ _ Hl Hd Hp Hlt) as Hq.
  apply trunc_floor in Hq. destruct Hq as [_ Hq].
  destruct (trunc _) as [k|]; simpl; [|discriminate].
  intros E. inversion E. specialize (Hq k eq_refl). lia.
Qed.

Lemma axis_refines_spec (len d pitch : float) :
  is_positive len = true -> is_positive d = true -> is_positive pitch = true ->
  (n <- axis_count len d pitch ;; Some (n, axis_margin len d pitch n))
  = spec_axis len d pitch.
Proof.
  intros Hl Hd Hp. unfold axis_count, spec_axis, py_div, axis_margin, axis_span.
  simpl. destruct (SFltb len d) eqn:Hlt; simpl; [reflexivity|].
  rewrite (positive_not_zero _ Hp). simpl.
  pose proof (quotient_not_negative _ _ _ Hl Hd Hp Hlt) as Hq.
  apply trunc_floor in Hq. destruct Hq as [<- Hq].
  destruct (trunc _) as [k|]; simpl; [|reflexivity].
  specialize (Hq k eq_refl).
  replace (0 <? k + 1) with true by (symmetry; apply Z.ltb_lt; lia).
  reflexivity.
Qed.

End B64Facts.

(** ** Exact arithmetic: the grid lies inside the plate *)

Module ExactFacts.

Import Exact.
Local Open Scope Q_scope.

Lemma trunc_bounds (x : Q) :
  0 <= x ->
  exists k : Z, trunc x = Some k /\ (0 <= k)%Z /\ inject_Z k <= x.
Proof.
  destruct x as [n d]. intros Hx.
  assert (Hn : (0 <= n)%Z) by (unfold Qle in Hx; simpl in Hx; lia).
  exists (n / Zpos d)%Z. unfold trunc. cbn [Qnum Qden].
  rewrite Z.quot_div_nonneg by lia.
  split; [reflexivity|]. split; [apply Z.div_pos; lia|].
  exact (Qfloor_le (n # d)).
Qed.

Lemma trunc_is_floor (x : Q) : 0 <= x -> trunc x = Some (Qfloor x).
Proof.
  destruct x as [n d]. intros Hx.
  assert (Hn : (0 <= n)%Z) by (unfold Qle in Hx; simpl in Hx; lia).
  unfold trunc. cbn [Qnum Qden Qfloor].
  now rewrite Z.quot_div_nonneg by lia.
Qed.

Lemma ltb_false (x y : Q) : y <= x -> fltb x y = false.
Proof.
  intros H. simpl. apply negb_false_iff. now apply Qle_bool_iff.
Qed.

Lemma ltb_true (x y : Q) : x < y -> fltb x y = true.
Proof.
  intros H. simpl. apply negb_true_iff.
  destruct (Qle_bool y x) eqn:E; [|reflexivity].
  apply Qle_bool_iff in E. lra.
Qed.

Lemma is_zero_false (x : Q) : 0 < x -> fis_zero x = false.
Proof.
  intros H. simpl. destruct (Qeq_bool x 0) eqn:E; [|reflexivity].
  apply Qeq_bool_iff in E. lra.
Qed.

(** The count and the span of one axis when the hole fits. *)
Lemma axis_fits (len d pitch : Q) :
  0 < pitch -> d <= len ->
  exists n : Z,
    axis_count len d pitch = Some n
    /\ (1 <= n)%Z
    /\ axis_span n d pitch <= len.
Proof.
  intros Hp Hd.
  assert (Hq : 0 <= (len - d) / pitch).
  { apply Qle_shift_div_l; [exact Hp | lra]. }
  destruct (trunc_bounds Hq) as [k [Hk [Hk0 Hkq]]].
  exists (k + 1)%Z. unfold axis_count, py_div.
  rewrite (ltb_false Hd), (is_zero_false Hp).
  cbn [bind fdiv fsub to_int num]. rewrite Hk. cbn [bind]. split; [reflexivity|]. split; [lia|].
  unfold axis_span. simpl.
  replace (k + 1 - 1)%Z with k by lia.
  assert (H : inject_Z k * pitch <= (len - d) / pitch * pitch).
  { apply Qmult_le_compat_r; [exact Hkq | lra]. }
  assert (E : (len - d) / pitch * pitch == len - d).
  { field. lra. }
  rewrite E in H. lra.
Qed.

Lemma axis_margin_fits (len d pitch : Q) (n : Z) :
  (1 <= n)%Z ->
  axis_margin len d pitch n == (len - axis_span n d pitch) / 2.
Proof.
  intros Hn. unfold axis_margin.
  replace (0 <? n)%Z with true by (symmetry; apply Z.ltb_lt; lia).
  reflexivity.
Qed.

Lemma axis_degenerate (len d pitch : Q) :
  len < d ->
  axis_count len d pitch = Some 0%Z /\ axis_margin len d pitch 0 == len / 2.
Proof.
  intros H. unfold axis_count, axis_margin. rewrite (ltb_true H).
  split; reflexivity.
Qed.

(** Every position of one axis lies inside the plate: the margin is not
    negative, and position [i] starts at [margin + i * pitch >= 0] and ends
    at [margin + i * pitch + d <= len]. *)
Lemma axis_positions_inside (len d pitch : Q) (n i : Z) :
  0 < pitch -> d <= len ->
  axis_count len d pitch = Some n ->
  (0 <= i < n)%Z ->
  0 <= axis_margin len d pitch n
  /\ 0 <= axis_margin len d pitch n + inject_Z i * pitch
  /\ axis_margin len d pitch n + inject_Z i * pitch + d <= len.
Proof.
  intros Hp Hd Hn Hi.
  destruct (axis_fits Hp Hd) as [n' [Hn' [H1 Hs]]].
  rewrite Hn in Hn'. injection Hn' as <-.
  rewrite (axis_margin_fits len d pitch H1).
  unfold axis_span in *. cbn [fadd fmul of_int num] in *.
  assert (H0 : 0 <= inject_Z i * pitch).
  { apply Qmult_le_0_compat; [|lra].
    change 0 with (inject_Z 0). rewrite <- Zle_Qle. lia. }
  assert (Hle : inject_Z i * pitch <= inject_Z (n - 1) * pitch).
  { apply Qmult_le_compat_r; [|lra]. rewrite <- Zle_Qle. lia. }
  revert Hs H0 Hle.
  generalize (inject_Z i * pitch), (inject_Z (n - 1) * pitch).
  intros a b Hs H0 Hle. unfold Qdiv. change (/ 2) with (1 # 2).
  repeat split; lra.
Qed.

Ltac q_linear :=
  unfold Qdiv in *;
  try change (/ inject_Z 2) with (1 # 2) in *;
  try change (/ 2) with (1 # 2) in *;
  try change (inject_Z 0) with 0 in *; lra.

Section ExactGrid.

Variable P : Params Q.
Variable L : Layout Q.
Hypothesis HL : layout P = Some L.
Hypothesis Hpx : 0 < pitch_x P.
Hypothesis Hpy : 0 < pitch_y P.
Hypothesis Htol : 0 <= tol P.
Hypothesis Hfx : hole_diameter P <= plate_length P.
Hypothesis Hfy : hole_diameter P <= plate_width P.

Lemma y_inside (row : Z) :
  (0 <= row < n_rows L)%Z ->
  y_low_ok P (cy_of P L row) = true /\ y_high_ok P (cy_of P L row) = true.
Proof.
  intros Hr. destruct (layout_some P HL) as [_ [Hn [_ Hm]]].
  destruct (axis_positions_inside Hpy Hfy Hn Hr) as [H0 [H1 H2]].
  rewrite <- Hm in H0, H1, H2.
  unfold y_low_ok, y_high_ok, fgeb, cy_of, hole_radius, lit_2_0.
  cbn [fleb fsub fadd fneg fmul fdiv of_int num].
  rewrite !Qle_bool_iff.
  revert H1 H2. generalize (inject_Z row * pitch_y P). intros a H1 H2.
  split; q_linear.
Qed.

Lemma x_inside_low (row col : Z) :
  (0 <= col < n_cols L)%Z ->
  x_low_ok P (cx_of P L row col) = true.
Proof.
  intros Hc. destruct (layout_some P HL) as [Hn [_ [Hm _]]].
  destruct (axis_positions_inside Hpx Hfx Hn Hc) as [H0 [H1 H2]].
  rewrite <- Hm in H0, H1, H2.
  unfold x_low_ok, fgeb, cx_of, x_offset, hole_radius, lit_2_0, lit_0_0.
  cbn [fleb fsub fadd fneg fmul fdiv of_int num].
  rewrite Qle_bool_iff.
  revert H1 H2. generalize (inject_Z col * pitch_x P). intros a H1 H2.
  destruct (row mod 2 =? 1)%Z; q_linear.
Qed.

Lemma x_inside_even (row col : Z) :
  (0 <= col < n_cols L)%Z -> (row mod 2 = 0)%Z ->
  x_high_ok P (cx_of P L row col) = true.
Proof.
  intros Hc He. destruct (layout_some P HL) as [Hn [_ [Hm _]]].
  destruct (axis_positions_inside Hpx Hfx Hn Hc) as [H0 [H1 H2]].
  rewrite <- Hm in H0, H1, H2.
  unfold x_high_ok, cx_of, x_offset, hole_radius, lit_2_0, lit_0_0.
  rewrite He. cbn [Z.eqb].
  cbn [fleb fsub fadd fneg fmul fdiv of_int num].
  rewrite Qle_bool_iff.
  revert H1 H2. generalize (inject_Z col * pitch_x P). intros a H1 H2.
  q_linear.
Qed.

End ExactGrid.

Lemma layout_total (P : Params Q) :
  0 < pitch_x P -> 0 < pitch_y P ->
  exists L : Layout Q, layout P = Some L.
Proof.
  intros Hpx Hpy. rewrite layout_axes.
  assert (A : forall len d pitch : Q, 0 < pitch ->
                exists n, axis_count len d pitch = Some n).
  { intros len d pitch Hp. destruct (Qlt_le_dec len d) as [H|H].
    - exists 0%Z. apply axis_degenerate, H.
    - destruct (axis_fits Hp H) as [n [Hn _]]. now exists n. }
  destruct (A (plate_length P) (hole_diameter P) (pitch_x P) Hpx) as [nc ->].
  destruct (A (plate_width P) (hole_diameter P) (pitch_y P) Hpy) as [nr ->].
  simpl. eauto.
Qed.

Lemma axis_margin_nonneg (len d pitch : Q) (n : Z) :
  0 < len -> 0 < pitch ->
  axis_count len d pitch = Some n ->
  0 <= axis_margin len d pitch n.
Proof.
  intros Hl Hp Hn. destruct (Qlt_le_dec len d) as [H|H].
  - destruct (axis_degenerate pitch H) as [E M].
    rewrite Hn in E. injection E as ->. rewrite M. q_linear.
  - destruct (axis_fits Hp H) as [n' [Hn' [H1 Hs]]].
    rewrite Hn in Hn'. injection Hn' as <-.
    rewrite (axis_margin_fits len d pitch H1). q_linear.
Qed.

Lemma axis_refines_spec_exact (len d pitch : Q) :
  0 < pitch ->
  axis_count len d pitch = Some (fst (spec_axis len d pitch))
  /\ axis_margin len d pitch (fst (spec_axis len d pitch))
     = snd (spec_axis len d pitch).
Proof.
  intros Hp. unfold spec_axis, axis_count, axis_margin, py_div.
  cbn [fltb Exact.num]. destruct (Qle_bool d len) eqn:Hd; cbn [negb fst snd].
  - apply Qle_bool_iff in Hd.
    assert (Hq : 0 <= (len - d) / pitch).
    { apply Qle_shift_div_l; [exact Hp | lra]. }
    rewrite (is_zero_false Hp). cbn [bind fdiv fsub to_int Exact.num].
    rewrite (trunc_is_floor Hq). cbn [bind].
    pose proof (Qfloor_resp_le _ _ Hq) as Hk.
    change (Qfloor 0) with 0%Z in Hk.
    split; [reflexivity|].
    replace (0 <? Qfloor ((len - d) / pitch) + 1)%Z with true
      by (symmetry; apply Z.ltb_lt; lia).
    reflexivity.
  - split; reflexivity.
Qed.

End ExactFacts.

Module Properties.

Import B64 B64Facts Exact ExactFacts Samples.

(** C1. The layout the script computes is the specification's: on each axis,
    count 0 and margin [len / 2] when [len < d]; otherwise
    [floor((len - d) / pitch) + 1] holes and margin [(len - span) / 2] with
    [span = (n - 1) * pitch + d]; the rows follow the rule of the columns
    with [plate_width] and [pitch_y].  In binary64, for positive dimensions,
    hole diameter and pitches, the operations are the floats' and [floor]
    raises where [int] does; in exact arithmetic, for positive pitches, the
    layout is always computed. *)
Theorem layout_refines_spec :
  (forall P : Params float,
     is_positive (plate_length P) = true ->
     is_positive (plate_width P) = true ->
     is_positive (hole_diameter P) = true ->
     is_positive (pitch_x P) = true ->
     is_positive (pitch_y P) = true ->
     layout P = B64.spec_layout P)
  /\ (forall P : Params Q,
        (0 < pitch_x P)%Q -> (0 < pitch_y P)%Q ->
        layout P = Some (Exact.spec_layout P)).
Proof.
  split.
  - intros P HL HW Hd Hx Hy. rewrite layout_axes. unfold B64.spec_layout.
    rewrite <- (axis_refines_spec _ _ _ HL Hd Hx).
    rewrite <- (axis_refines_spec _ _ _ HW Hd Hy).
    destruct (axis_count (plate_length P) _ _) as [nc|]; [|reflexivity].
    destruct (axis_count (plate_width P) _ _) as [nr|]; reflexivity.
  - intros P Hx Hy. rewrite layout_axes. unfold Exact.spec_layout.
    destruct (axis_refines_spec_exact (plate_length P) (hole_diameter P) Hx)
      as [-> <-].
    destruct (axis_refines_spec_exact (plate_width P) (hole_diameter P) Hy)
      as [-> <-].
    reflexivity.
Qed.

Lemma layout_refines_spec_witness :
  is_positive (plate_length script_params) = true
  /\ layout script_params = B64.spec_layout script_params
  /\ layout script_params = Some script_layout
  /\ (0 < pitch_x exact_script_params)%Q
  /\ layout exact_script_params = Some (Exact.spec_layout exact_script_params).
Proof.
  split; [reflexivity|]. split; [|split; [|split]].
  - apply (proj1 layout_refines_spec); reflexivity.
  - vm_compute. reflexivity.
  - reflexivity.
  - apply (proj2 layout_refines_spec); reflexivity.
Defined.

(** C2, as stated, fails in binary64: on a 1e18 x 1e18 plate with hole 1,
    pitches 5e17 and tol 1e-6 the position of row 0 and column 2 is accepted
    with [cx = 1e18], so that the circle reaches [1e18 + 0.5], beyond
    [plate_length + tol]: the sums [cx + hole_radius] and
    [plate_length + tol] both round to 1e18. *)
Lemma accepted_circle_leaves_plate_b64 :
  ~ (forall (P : Params float) (L : Layout float) (cx cy : float),
       is_positive (plate_length P) = true ->
       is_positive (plate_width P) = true ->
       is_positive (hole_diameter P) = true ->
       is_positive (pitch_x P) = true ->
       is_positive (pitch_y P) = true ->
       tol P = dec 1 6 ->
       layout P = Some L ->
       In (cx, cy) (hole_centers P L) ->
       (- to_Q (tol P) <= to_Q cx - to_Q (hole_radius P))%Q
       /\ (to_Q cx + to_Q (hole_radius P)
           <= to_Q (plate_length P) + to_Q (tol P))%Q
       /\ (- to_Q (tol P) <= to_Q cy - to_Q (hole_radius P))%Q
       /\ (to_Q cy + to_Q (hole_radius P)
           <= to_Q (plate_width P) + to_Q (tol P))%Q).
Proof.
  intros H.
  assert (E : layout Extremes.corner_plate = Some Extremes.corner_layout)
    by (vm_compute; reflexivity).
  assert (I : In (cx_of Extremes.corner_plate Extremes.corner_layout 0 2,
                  cy_of Extremes.corner_plate Extremes.corner_layout 0)
                 (hole_centers Extremes.corner_plate Extremes.corner_layout)).
  { apply (proj2 (in_hole_centers _ _ _)). exists 0, 2. split; [|reflexivity].
    apply (proj2 (in_hole_indices _ _ _ _)).
    split; [simpl; lia | vm_compute; reflexivity]. }
  destruct (H Extremes.corner_plate Extremes.corner_layout _ _
              eq_refl eq_refl eq_refl eq_refl eq_refl eq_refl E I)
    as [_ [K _]].
  clear H E I. vm_compute in K. exact (K eq_refl).
Qed.

(** C2, amended. In any arithmetic, every centre the enumerator accepts
    passed the four comparisons of the boundary check as the script
    evaluates them: [cx - hole_radius >= -tol],
    [cx + hole_radius <= plate_length + tol], [cy - hole_radius >= -tol] and
    [cy + hole_radius <= plate_width + tol], on the computed differences and
    sums.  In exact arithmetic these are the inequalities themselves: the
    circle of every accepted hole lies within the plate widened by [tol]. *)
Theorem accepted_center_passes_tests :
  (forall (F : Type) (N : PyNum F) (P : Params F) (L : Layout F) (cx cy : F),
     In (cx, cy) (hole_centers P L) ->
     fgeb (fsub cx (hole_radius P)) (fneg (tol P)) = true
     /\ fleb (fadd cx (hole_radius P)) (fadd (plate_length P) (tol P)) = true
     /\ fgeb (fsub cy (hole_radius P)) (fneg (tol P)) = true
     /\ fleb (fadd cy (hole_radius P)) (fadd (plate_width P) (tol P)) = true)
  /\ (forall (P : Params Q) (L : Layout Q) (cx cy : Q),
        In (cx, cy) (hole_centers P L) ->
        (- tol P <= cx - hole_radius P)%Q
        /\ (cx + hole_radius P <= plate_length P + tol P)%Q
        /\ (- tol P <= cy - hole_radius P)%Q
        /\ (cy + hole_radius P <= plate_width P + tol P)%Q).
Proof.
  split.
  - intros F N P L cx cy H. now apply accepted_center_within_bounds with (L := L).
  - intros P L cx cy H.
    destruct (accepted_center_within_bounds P L cx cy H) as [A [B [C D]]].
    unfold fgeb in A, C. cbn [fleb fadd fsub fneg Exact.num] in A, B, C, D.
    rewrite Qle_bool_iff in A, B, C, D. auto.
Qed.

Lemma accepted_center_passes_tests_witness :
  In (dec 50 1, dec 50 1) (hole_centers script_params script_layout)
  /\ fleb (fadd (dec 50 1) (hole_radius script_params))
          (fadd (plate_length script_params) (tol script_params)) = true
  /\ In (cx_of exact_script_params exact_script_layout 0 0,
         cy_of exact_script_params exact_script_layout 0)
        (hole_centers exact_script_params exact_script_layout)
  /\ (cx_of exact_script_params exact_script_layout 0 0
      + hole_radius exact_script_params
      <= plate_length exact_script_params + tol exact_script_params)%Q.
Proof.
  assert (H : In (dec 50 1, dec 50 1) (hole_centers script_params script_layout))
    by (vm_compute; left; reflexivity).
  assert (K : In (cx_of exact_script_params exact_script_layout 0 0,
                  cy_of exact_script_params exact_script_layout 0)
                 (hole_centers exact_script_params exact_script_layout))
    by (vm_compute; left; reflexivity).
  split; [exact H|]. split.
  - exact (proj1 (proj2 (proj1 accepted_center_passes_tests float B64.num
                           script_params script_layout _ _ H))).
  - split; [exact K|].
    exact (proj1 (proj2 (proj2 accepted_center_passes_tests
                           exact_script_params exact_script_layout _ _ K))).
Defined.

Lemma no_columns_no_holes_witness :
  fltb (plate_length narrow_plate) (hole_diameter narrow_plate) = true
  /\ layout narrow_plate = Some narrow_layout
  /\ n_cols narrow_layout = 0
  /\ hole_centers narrow_plate narrow_layout = [].
Proof.
  assert (H : fltb (plate_length narrow_plate) (hole_diameter narrow_plate) = true)
    by reflexivity.
  assert (E : layout narrow_plate = Some narrow_layout)
    by (vm_compute; reflexivity).
  split; [exact H|]. split; [exact E|].
  destruct (proj2 (no_columns_no_holes narrow_plate H) narrow_layout E)
    as [K1 [_ K3]].
  split; assumption.
Defined.

Lemma hole_sequence_deterministic_row_major_witness :
  layout script_params = Some script_layout
  /\ StronglySorted row_major (hole_indices script_params script_layout)
  /\ length (hole_indices script_params script_layout) = 48%nat
  /\ hole_sequence script_params
     = Some (hole_centers script_params script_layout).
Proof.
  assert (E : layout script_params = Some script_layout) by (vm_compute; reflexivity).
  split; [exact E|]. split; [|split].
  - exact (proj1 (proj2 (proj2 (@hole_sequence_deterministic_row_major float B64.num)
                           script_params script_layout E))).
  - vm_compute. reflexivity.
  - apply (proj1 (@hole_sequence_deterministic_row_major float B64.num)
             script_params script_params _ _ eq_refl eq_refl).
    unfold hole_sequence. rewrite E. reflexivity.
Defined.

Lemma boolean_cut_cases_witness :
  layout narrow_plate = Some narrow_layout
  /\ hole_centers narrow_plate narrow_layout = []
  /\ generated_model SymBox SymHexagon SymCompound SymCut narrow_plate
     = Some (base_plate SymBox narrow_plate, [])
  /\ layout script_params = Some script_layout
  /\ hole_centers script_params script_layout <> []
  /\ result_shape SymBox SymHexagon SymCompound SymCut script_params
     = Some (SymCut (base_plate SymBox script_params)
                    (SymCompound (hole_tools SymHexagon script_params script_layout))).
Proof.
  assert (E0 : layout narrow_plate = Some narrow_layout)
    by (vm_compute; reflexivity).
  assert (H0 : hole_centers narrow_plate narrow_layout = []) by reflexivity.
  assert (E1 : layout script_params = Some script_layout)
    by (vm_compute; reflexivity).
  assert (H1 : hole_centers script_params script_layout <> [])
    by (vm_compute; discriminate).
  split; [exact E0|]. split; [exact H0|]. split.
  - exact (proj1 (proj1 (boolean_cut_cases SymBox SymHexagon SymCompound SymCut
                           narrow_plate E0) H0)).
  - split; [exact E1|]. split; [exact H1|].
    exact (proj1 (proj2 (proj2 (boolean_cut_cases SymBox SymHexagon SymCompound
                                  SymCut script_params E1) H1))).
Defined.

(** C3, as stated, fails on the script's constants: the margins are not 0,
    and not all 50 positions are accepted. *)
Lemma script_margins_not_zero :
  ~ (exists L : Layout float,
       layout script_params = Some L
       /\ n_cols L = 10 /\ n_rows L = 5
       /\ is_zero (margin_x L) = true /\ is_zero (margin_y L) = true
       /\ length (grid_positions L) = 50%nat
       /\ length (hole_centers script_params L) = 50%nat).
Proof.
  intros [L [E [_ [_ [Hx _]]]]].
  assert (E' : layout script_params = Some script_layout) by (vm_compute; reflexivity).
  rewrite E' in E. injection E as <-. clear E'. vm_compute in Hx. discriminate Hx.
Qed.

(** C3, amended. With the script's constants (100 x 50, hole 5, pitches 10)
    the layout is 10 columns, 5 rows and margins 2.5 and 2.5; 50 grid
    positions are visited and 48 accepted: the last column of rows 1 and 3,
    where [cx = 100.0] and [cx + hole_radius = 102.5 > 100 + tol], is
    rejected. *)
Theorem script_layout_and_holes :
  layout script_params = Some script_layout
  /\ n_cols script_layout = 10 /\ n_rows script_layout = 5
  /\ margin_x script_layout = dec 25 1 /\ margin_y script_layout = dec 25 1
  /\ length (grid_positions script_layout) = 50%nat
  /\ length (hole_centers script_params script_layout) = 48%nat
  /\ filter (fun rc => negb (accepts script_params script_layout rc))
            (grid_positions script_layout) = [(1, 9); (3, 9)]
  /\ cx_of script_params script_layout 1 9 = dec 1000 1
  /\ fadd (cx_of script_params script_layout 1 9) (hole_radius script_params)
     = dec 1025 1
  /\ x_high_ok script_params (cx_of script_params script_layout 1 9) = false.
Proof. vm_compute. repeat split; reflexivity. Qed.

(** C4, as stated, fails in binary64: for 0.9, 0.3 and 0.2 the count is 4
    and the span 0.9000000000000001 exceeds the plate length 0.9. *)
Lemma span_exceeds_length_b64 :
  ~ (forall len d pitch : float,
       is_positive len = true -> is_positive d = true ->
       is_positive pitch = true -> fltb len d = false ->
       exists n, axis_count len d pitch = Some n
                 /\ 1 <= n
                 /\ fleb (axis_span n d pitch) len = true).
Proof.
  intros H.
  destruct (H (dec 9 1) (dec 3 1) (dec 2 1)) as [n [Hn [_ Hs]]];
    try reflexivity.
  assert (E : axis_count (dec 9 1) (dec 3 1) (dec 2 1) = Some 4)
    by (vm_compute; reflexivity).
  rewrite E in Hn. injection Hn as <-. clear E. vm_compute in Hs. discriminate Hs.
Qed.

(** C4, amended. When the test [plate_length < hole_diameter] fails: in
    binary64 the count is computed whenever the quotient is finite, and a
    computed count is at least 1; in exact arithmetic the count is computed,
    is at least 1, and [span_x <= plate_length]. *)
Theorem count_positive_span_exact :
  (forall len d pitch : float,
     is_positive len = true -> is_positive d = true ->
     is_positive pitch = true -> fltb len d = false ->
     (is_finite (fdiv (fsub len d) pitch) = true ->
      exists n, axis_count len d pitch = Some n)
     /\ (forall n, axis_count len d pitch = Some n -> 1 <= n))
  /\ (forall len d pitch : Q,
        (0 < d)%Q -> (0 < pitch)%Q -> (d <= len)%Q ->
        exists n, axis_count len d pitch = Some n
                  /\ 1 <= n
                  /\ (axis_span n d pitch <= len)%Q).
Proof.
  split.
  - intros len d pitch Hl Hd Hp Hlt. split.
    + intros Hf. unfold axis_count, py_div.
      rewrite Hlt. cbn [fis_zero B64.num]. rewrite (positive_not_zero _ Hp).
      cbn [bind to_int B64.num].
      destruct (fdiv (fsub len d) pitch) as [s|s| |s m e];
        try discriminate; cbn [B64.trunc bind]; eauto.
    + intros n. now apply axis_count_positive.
  - intros len d pitch _ Hp Hd. now apply axis_fits.
Qed.

Lemma count_positive_span_exact_witness :
  is_positive (dec 9 1) = true
  /\ fltb (dec 9 1) (dec 3 1) = false
  /\ axis_count (dec 9 1) (dec 3 1) (dec 2 1) = Some 4
  /\ 1 <= 4
  /\ (5 <= 100)%Q
  /\ exists n, axis_count 100%Q 5%Q 10%Q = Some n
               /\ 1 <= n /\ (axis_span n 5 10 <= 100)%Q.
Proof.
  assert (E : axis_count (dec 9 1) (dec 3 1) (dec 2 1) = Some 4)
    by (vm_compute; reflexivity).
  assert (Q5 : (5 <= 100)%Q) by (vm_compute; discriminate).
  split; [reflexivity|]. split; [reflexivity|]. split; [exact E|]. split.
  - exact (proj2 (proj1 count_positive_span_exact (dec 9 1) (dec 3 1) (dec 2 1)
                    eq_refl eq_refl eq_refl eq_refl) 4 E).
  - split; [exact Q5|].
    exact (proj2 count_positive_span_exact 100%Q 5%Q 10%Q eq_refl eq_refl Q5).
Defined.

(** C9, as stated, fails in binary64: for a 0.9 x 0.9 plate, hole 0.3 and
    pitches 0.2, all positive and the hole fitting, both margins are
    negative (-2^-54). *)
Lemma negative_margin_b64 :
  ~ (forall P : Params float,
       is_positive (plate_length P) = true ->
       is_positive (plate_width P) = true ->
       is_positive (hole_diameter P) = true ->
       is_positive (pitch_x P) = true ->
       is_positive (pitch_y P) = true ->
       forall L, layout P = Some L ->
         fltb (margin_x L) lit_0_0 = false /\ fltb (margin_y L) lit_0_0 = false).
Proof.
  intros H.
  assert (E : layout tenths_plate
              = Some {| n_cols := 4; margin_x := S754_finite true 4503599627370496 (-106);
                        n_rows := 4; margin_y := S754_finite true 4503599627370496 (-106) |})
    by (vm_compute; reflexivity).
  destruct (H tenths_plate eq_refl eq_refl eq_refl eq_refl eq_refl _ E) as [Hx _].
  clear E H. vm_compute in Hx. discriminate Hx.
Qed.

(** C9, amended. In exact arithmetic, for positive dimensions, hole diameter
    and pitches, the layout is computed and neither margin is negative: on an
    axis where the hole fits the margin is [(len - span) / 2] with
    [span <= len], and on an axis where it does not the margin is [len / 2].
    In binary64 the margin [len / 2] of an axis where the hole does not fit is
    never negative. *)
Theorem margins_not_negative_exact :
  (forall P : Params Q,
     (0 < plate_length P)%Q -> (0 < plate_width P)%Q ->
     (0 < hole_diameter P)%Q ->
     (0 < pitch_x P)%Q -> (0 < pitch_y P)%Q ->
     exists L, layout P = Some L
               /\ (0 <= margin_x L)%Q /\ (0 <= margin_y L)%Q)
  /\ (forall len d pitch : Q,
        (0 < len)%Q -> (len < d)%Q ->
        axis_count len d pitch = Some 0
        /\ (axis_margin len d pitch 0 == len / 2)%Q
        /\ (0 < axis_margin len d pitch 0)%Q)
  /\ (forall len d pitch : float,
        is_positive len = true -> fltb len d = true ->
        axis_count len d pitch = Some 0
        /\ axis_margin len d pitch 0 = fdiv len lit_2_0
        /\ fltb (axis_margin len d pitch 0) lit_0_0 = false).
Proof.
  split; [|split].
  - intros P HL HW Hd Hx Hy.
    destruct (layout_total P Hx Hy) as [L E]. exists L. split; [exact E|].
    destruct (layout_some P E) as [Hc [Hr [Mx My]]]. rewrite Mx, My.
    split; eapply axis_margin_nonneg; eauto.
  - intros len d pitch Hl Hlt.
    destruct (axis_degenerate pitch Hlt) as [E M].
    split; [exact E|]. split; [exact M|]. rewrite M. q_linear.
  - intros len d pitch Hl Hlt. unfold axis_count, axis_margin.
    rewrite Hlt. cbn [Z.ltb Z.compare]. split; [reflexivity|].
    split; [reflexivity|].
    assert (N : not_negative (fdiv len lit_2_0) = true).
    { apply div_not_negative; [|reflexivity].
      apply is_positive_inv in Hl. destruct Hl as [m [e [-> _]]]. reflexivity. }
    destruct (fdiv len lit_2_0) as [s|[|]| |[|] m e]; try discriminate N;
      reflexivity.
Qed.

Lemma margins_not_negative_exact_witness :
  (0 < plate_length exact_script_params)%Q
  /\ (exists L, layout exact_script_params = Some L
                /\ (0 <= margin_x L)%Q /\ (0 <= margin_y L)%Q)
  /\ layout exact_script_params = Some exact_script_layout
  /\ (3 < 5)%Q
  /\ (0 < axis_margin 3 5 10 0)%Q
  /\ fltb (dec 30 1) (dec 50 1) = true
  /\ fltb (axis_margin (dec 30 1) (dec 50 1) (dec 100 1) 0) lit_0_0 = false.
Proof.
  split; [reflexivity|]. split; [|split; [|split; [|split; [|split]]]].
  - apply (proj1 margins_not_negative_exact exact_script_params); reflexivity.
  - vm_compute. reflexivity.
  - reflexivity.
  - apply (proj1 (proj2 margins_not_negative_exact) 3%Q 5%Q 10%Q); reflexivity.
  - reflexivity.
  - apply (proj2 (proj2 margins_not_negative_exact) (dec 30 1) (dec 50 1)
             (dec 100 1)); reflexivity.
Defined.

(** C10, as stated, fails in binary64: on a 12000000000000.1 square plate
    with hole 0.1 and pitches 6000000000000.0 (tol 1e-6) the layout is 3 x 3
    with margins 0.0, and the position of the even row 0 and column 2 is
    rejected. *)
Lemma even_row_rejected_b64 :
  ~ (forall (P : Params float) (L : Layout float),
       is_positive (plate_length P) = true ->
       is_positive (plate_width P) = true ->
       is_positive (hole_diameter P) = true ->
       is_positive (pitch_x P) = true ->
       is_positive (pitch_y P) = true ->
       tol P = dec 1 6 ->
       fltb (plate_length P) (hole_diameter P) = false ->
       fltb (plate_width P) (hole_diameter P) = false ->
       layout P = Some L ->
       forall row col,
         0 <= row < n_rows L -> 0 <= col < n_cols L -> row mod 2 = 0 ->
         boundary_check P (cx_of P L row col) (cy_of P L row) = true).
Proof.
  intros H.
  assert (E : layout huge_plate = Some huge_layout) by (vm_compute; reflexivity).
  assert (R : 0 <= 0 < n_rows huge_layout) by (simpl; lia).
  assert (C : 0 <= 2 < n_cols huge_layout) by (simpl; lia).
  pose proof (H huge_plate huge_layout eq_refl eq_refl eq_refl eq_refl eq_refl
                eq_refl eq_refl eq_refl E 0 2 R C eq_refl) as K.
  clear H E. vm_compute in K. discriminate K.
Qed.

(** C10, amended. In exact arithmetic, for positive pitches, a tolerance
    that is not negative and a hole that fits both ways, the layout is
    computed; every row passes the two y-axis tests; every position of an
    even row passes the whole check; so a rejected position is in an odd row
    and fails only the upper x-axis test. *)
Theorem rejection_only_odd_rows_exact (P : Params Q) :
  (0 < pitch_x P)%Q -> (0 < pitch_y P)%Q -> (0 <= tol P)%Q ->
  (hole_diameter P <= plate_length P)%Q ->
  (hole_diameter P <= plate_width P)%Q ->
  exists L : Layout Q,
    layout P = Some L
    /\ (forall row, 0 <= row < n_rows L ->
          y_low_ok P (cy_of P L row) = true
          /\ y_high_ok P (cy_of P L row) = true)
    /\ (forall row col,
          0 <= row < n_rows L -> 0 <= col < n_cols L -> row mod 2 = 0 ->
          boundary_check P (cx_of P L row col) (cy_of P L row) = true)
    /\ (forall row col,
          0 <= row < n_rows L -> 0 <= col < n_cols L ->
          boundary_check P (cx_of P L row col) (cy_of P L row) = false ->
          row mod 2 = 1
          /\ x_low_ok P (cx_of P L row col) = true
          /\ x_high_ok P (cx_of P L row col) = false).
Proof.
  intros Hpx Hpy Htol Hfx Hfy.
  destruct (layout_total P Hpx Hpy) as [L E]. exists L.
  split; [exact E|].
  pose proof (@y_inside P L E Hpy Htol Hfy) as Y.
  pose proof (@x_inside_low P L E Hpx Htol Hfx) as XL.
  pose proof (@x_inside_even P L E Hpx Htol Hfx) as XE.
  split; [exact Y|]. split.
  - intros row col Hr Hc He. unfold boundary_check.
    destruct (Y row Hr) as [-> ->]. rewrite (XL row col Hc), (XE row col Hc He).
    reflexivity.
  - intros row col Hr Hc Hb. unfold boundary_check in Hb.
    destruct (Y row Hr) as [Y1 Y2]. rewrite Y1, Y2, (XL row col Hc) in Hb.
    rewrite !andb_true_r in Hb. cbn [andb] in Hb.
    split; [|split; [apply XL, Hc | exact Hb]].
    pose proof (Z.mod_pos_bound row 2 eq_refl) as B.
    destruct (Z.eq_dec (row mod 2) 0) as [He|He]; [|lia].
    rewrite (XE row col Hc He) in Hb. discriminate Hb.
Qed.

Lemma rejection_only_odd_rows_exact_witness :
  (0 < pitch_x exact_script_params)%Q
  /\ (hole_diameter exact_script_params <= plate_length exact_script_params)%Q
  /\ layout exact_script_params = Some exact_script_layout
  /\ boundary_check exact_script_params
       (cx_of exact_script_params exact_script_layout 1 9)
       (cy_of exact_script_params exact_script_layout 1) = false
  /\ exists L : Layout Q,
       layout exact_script_params = Some L
       /\ forall row col,
            0 <= row < n_rows L -> 0 <= col < n_cols L -> row mod 2 = 0 ->
            boundary_check exact_script_params
              (cx_of exact_script_params L row col)
              (cy_of exact_script_params L row) = true.
Proof.
  assert (H1 : (0 < pitch_x exact_script_params)%Q) by reflexivity.
  assert (H2 : (0 < pitch_y exact_script_params)%Q) by reflexivity.
  assert (H3 : (0 <= tol exact_script_params)%Q) by (vm_compute; discriminate).
  assert (H4 : (hole_diameter exact_script_params
                <= plate_length exact_script_params)%Q)
    by (vm_compute; discriminate).
  assert (H5 : (hole_diameter exact_script_params
                <= plate_width exact_script_params)%Q)
    by (vm_compute; discriminate).
  split; [exact H1|]. split; [exact H4|].
  split; [vm_compute; reflexivity|]. split; [vm_compute; reflexivity|].
  destruct (rejection_only_odd_rows_exact exact_script_params H1 H2 H3 H4 H5)
    as [L [E [_ [K _]]]].
  exists L. split; [exact E | exact K].
Defined.

(** C6, as stated, fails in binary64: on a 10 x 10 plate with hole 1 and
    pitches 0.3, the accepted centres of column 0 in rows 0 and 1 have
    [cx = 0.5] and [cx = 0.65], two floats whose difference is not the float
    [pitch_x / 2]. *)
Lemma stagger_not_exact_b64 :
  ~ (forall (P : Params float) (L : Layout float) (row col : Z),
       is_positive (pitch_x P) = true ->
       layout P = Some L ->
       In (row, col) (hole_indices P L) ->
       In (row + 1, col) (hole_indices P L) ->
       (Qabs (to_Q (cx_of P L (row + 1) col) - to_Q (cx_of P L row col))
        == to_Q (fdiv (pitch_x P) lit_2_0))%Q).
Proof.
  intros H.
  assert (E : layout fine_pitch_plate = Some fine_pitch_layout)
    by (vm_compute; reflexivity).
  assert (I0 : In (0, 0) (hole_indices fine_pitch_plate fine_pitch_layout)).
  { apply (proj2 (in_hole_indices _ _ _ _)).
    split; [simpl; lia | vm_compute; reflexivity]. }
  assert (I1 : In (0 + 1, 0) (hole_indices fine_pitch_plate fine_pitch_layout)).
  { apply (proj2 (in_hole_indices _ _ _ _)).
    split; [simpl; lia | vm_compute; reflexivity]. }
  pose proof (H fine_pitch_plate fine_pitch_layout 0 0 eq_refl E I0 I1) as K.
  clear H E I0 I1. vm_compute in K. discriminate K.
Qed.

(** C6, amended. In any arithmetic the x_offset is [pitch_x / 2] in odd rows
    and [0.0] in even rows, so of two adjacent rows exactly one has the
    offset, and [cx] is the sum of the unstaggered position and the offset;
    in exact arithmetic the [cx] of the same column in two adjacent rows
    differ by exactly [pitch_x / 2] in absolute value. *)
Theorem stagger_half_pitch :
  (forall (F : Type) (N : PyNum F) (P : Params F) (L : Layout F) (row col : Z),
     cx_of P L row col
     = fadd (fadd (fadd (margin_x L) (hole_radius P)) (fmul (of_int col) (pitch_x P)))
            (x_offset P row)
     /\ (row mod 2 = 1 ->
           x_offset P row = fdiv (pitch_x P) lit_2_0
           /\ x_offset P (row + 1) = lit_0_0)
     /\ (row mod 2 = 0 ->
           x_offset P row = lit_0_0
           /\ x_offset P (row + 1) = fdiv (pitch_x P) lit_2_0))
  /\ (forall (P : Params Q) (L : Layout Q) (row col : Z),
        (0 < pitch_x P)%Q ->
        (Qabs (cx_of P L (row + 1) col - cx_of P L row col)
         == pitch_x P / 2)%Q).
Proof.
  assert (S : forall row, (row + 1) mod 2 = (row mod 2 + 1) mod 2).
  { intros row. rewrite Z.add_mod by lia. reflexivity. }
  split.
  - intros F N P L row col. split; [reflexivity|].
    unfold x_offset. rewrite S. split; intros ->; split; reflexivity.
  - intros P L row col Hp. unfold cx_of, x_offset. rewrite S.
    cbn [fadd fmul fdiv of_int Exact.num].
    generalize (margin_x L + hole_radius P + inject_Z col * pitch_x P)%Q.
    intros b. unfold lit_2_0, lit_0_0. cbn [of_int Exact.num].
    pose proof (Z.mod_pos_bound row 2 eq_refl) as B.
    assert (C : row mod 2 = 0 \/ row mod 2 = 1) by lia.
    destruct C as [-> | ->]; cbn [Z.add Z.modulo Z.eqb Z.div_eucl Z.pos_div_eucl
                                   Pos.add Z.leb Z.compare Pos.compare
                                   Pos.compare_cont Z.mul Pos.mul Z.sub Z.opp
                                   Z.pos_sub Z.succ_double Z.pred_double
                                   Z.double Z.ltb snd fst Pos.succ Pos.eqb].
    + rewrite Qabs_pos; q_linear.
    + rewrite Qabs_neg; q_linear.
Qed.

Lemma stagger_half_pitch_witness :
  (0 < pitch_x exact_script_params)%Q
  /\ (Qabs (cx_of exact_script_params exact_script_layout (0 + 1) 0
            - cx_of exact_script_params exact_script_layout 0 0)
      == pitch_x exact_script_params / 2)%Q
  /\ x_offset script_params 1 = fdiv (pitch_x script_params) lit_2_0.
Proof.
  assert (H : (0 < pitch_x exact_script_params)%Q) by reflexivity.
  split; [exact H|]. split.
  - exact (proj2 stagger_half_pitch exact_script_params exact_script_layout 0 0 H).
  - exact (proj1 (proj1 (proj2 (proj1 stagger_half_pitch float B64.num
                                  script_params script_layout 1 0)) eq_refl)).
Defined.

End Properties.

(** * Further properties of the script *)

(** ** The enumeration, in any arithmetic *)

Section EnumerationFacts.

Context {F : Type} {num : PyNum F}.

Lemma length_grid_rows (cols rows : list Z) :
  length (flat_map (fun row => map (fun col => (row, col)) cols) rows)
  = (length rows * length cols)%nat.
Proof.
  induction rows as [|r rows IH]; simpl; [reflexivity|].
  now rewrite length_app, length_map, IH.
Qed.

Lemma filter_all_iff {A : Type} (f : A -> bool) (l : list A) :
  length (filter f l) = length l <-> (forall x, In x l -> f x = true).
Proof.
  induction l as [|a l IH]; simpl.
  - split; [intros _ x [] | reflexivity].
  - destruct (f a) eqn:Ea; simpl.
    + split.
      * intros E x [<-|Hx]; [exact Ea|]. apply IH; [lia | exact Hx].
      * intros H. f_equal. apply IH. intros x Hx. apply H. now right.
    + split.
      * intros E. pose proof (filter_length_le f l). lia.
      * intros H. rewrite (H a (or_introl eq_refl)) in Ea. discriminate Ea.
Qed.

(** The loops produce at most [n_rows * n_cols] holes (a count that is not
    positive is an empty range), and exactly that many if and only if the
    centre of every grid position passes the boundary check. *)
Theorem hole_count_full_iff_all_pass (P : Params F) (L : Layout F) :
  (length (hole_centers P L) <= Z.to_nat (n_rows L) * Z.to_nat (n_cols L))%nat
  /\ (length (hole_centers P L) = (Z.to_nat (n_rows L) * Z.to_nat (n_cols L))%nat
      <-> forall row col : Z,
            0 <= row < n_rows L -> 0 <= col < n_cols L ->
            boundary_check P (cx_of P L row col) (cy_of P L row) = true).
Proof.
  assert (G : length (grid_positions L)
              = (Z.to_nat (n_rows L) * Z.to_nat (n_cols L))%nat).
  { unfold grid_positions. now rewrite length_grid_rows, !length_range. }
  unfold hole_centers. rewrite hole_loop_filter, length_map, <- G.
  split; [apply filter_length_le|].
  rewrite filter_all_iff. split.
  - intros H row col Hr Hc.
    apply (H (row, col)), in_grid_positions. auto.
  - intros H [row col] Hi. apply in_grid_positions in Hi.
    unfold accepts. cbn [fst snd]. now apply H.
Qed.

(** The enumeration drops nothing: every grid position whose centre passes
    the boundary check is in the result, with the centre the loop computed. *)
Theorem enumeration_complete (P : Params F) (L : Layout F) (row col : Z) :
  0 <= row < n_rows L -> 0 <= col < n_cols L ->
  boundary_check P (cx_of P L row col) (cy_of P L row) = true ->
  In (cx_of P L row col, cy_of P L row) (hole_centers P L).
Proof.
  intros Hr Hc Hb. apply in_hole_centers. exists row, col.
  split; [|reflexivity]. apply in_hole_indices. auto.
Qed.

(** A zero pitch raises ZeroDivisionError on an axis where the hole fits, so
    the script computes no layout; where the hole fits on neither axis the
    pitches are not used and the layout is the two half dimensions. *)
Theorem zero_pitch_raises (P : Params F) :
  (fltb (plate_length P) (hole_diameter P) = false ->
   fis_zero (pitch_x P) = true -> layout P = None)
  /\ (fltb (plate_width P) (hole_diameter P) = false ->
      fis_zero (pitch_y P) = true -> layout P = None)
  /\ (fltb (plate_length P) (hole_diameter P) = true ->
      fltb (plate_width P) (hole_diameter P) = true ->
      layout P = Some {| n_cols := 0; margin_x := fdiv (plate_length P) lit_2_0;
                         n_rows := 0; margin_y := fdiv (plate_width P) lit_2_0 |}).
Proof.
  unfold layout, py_div. split; [|split].
  - intros -> ->. reflexivity.
  - intros -> ->.
    destruct (if fltb (plate_length P) (hole_diameter P) then Some 0 else _);
      reflexivity.
  - intros -> ->. reflexivity.
Qed.

(** When [plate_width < hole_diameter] the row count is 0: the outer loop
    does not run and there is no hole, whatever the columns are. *)
Theorem no_rows_no_holes (P : Params F) :
  fltb (plate_width P) (hole_diameter P) = true ->
  axis_count (plate_width P) (hole_diameter P) (pitch_y P) = Some 0
  /\ forall L : Layout F, layout P = Some L ->
       n_rows L = 0
       /\ margin_y L = fdiv (plate_width P) lit_2_0
       /\ grid_positions L = []
       /\ hole_centers P L = [].
Proof.
  intros Hlt.
  assert (Hc : axis_count (plate_width P) (hole_diameter P) (pitch_y P) = Some 0)
    by (unfold axis_count; now rewrite Hlt).
  split; [exact Hc|]. intros L HL.
  apply layout_some in HL. destruct HL as [_ [H1 [_ Hm]]].
  rewrite Hc in H1. injection H1 as H0.
  assert (G : grid_positions L = []) by (unfold grid_positions; now rewrite <- H0).
  split; [now symmetry|]. split.
  - rewrite Hm, <- H0. reflexivity.
  - split; [exact G|]. unfold hole_centers. now rewrite hole_loop_filter, G.
Qed.

End EnumerationFacts.

(** ** Binary64: where the script raises, and what it accepts *)

Module B64Edge.

Import B64 B64Facts Samples.

(** Where the hole fits and the pitch is not zero, the count of an axis is
    not computed exactly when the quotient is an infinity or a NaN: [int]
    then raises OverflowError or ValueError. *)
Theorem int_raises_iff_not_finite (len d pitch : float) :
  fltb len d = false -> is_zero pitch = false ->
  (axis_count len d pitch = None
   <-> is_finite (fdiv (fsub len d) pitch) = false).
Proof.
  intros Hlt Hz. unfold axis_count, py_div. rewrite Hlt.
  cbn [fis_zero B64.num]. rewrite Hz. cbn [bind to_int B64.num].
  destruct (fdiv (fsub len d) pitch) as [s|s| |s m e]; cbn [B64.trunc bind is_finite];
    split; intros H; try reflexivity; discriminate H.
Qed.

Lemma finite_sum_parts (a b : float) :
  is_finite (SFadd prec emax a b) = true ->
  is_finite a = true /\ is_finite b = true.
Proof.
  destruct a as [sa|[|]| |sa ma ea]; destruct b as [sb|[|]| |sb mb eb];
    cbn [SFadd is_finite]; intros H; try discriminate H; auto;
    destruct sa; try discriminate H; auto.
Qed.

Lemma upper_test_finite (c r hi : float) :
  is_finite hi = true ->
  SFleb (SFadd prec emax c r) hi = true ->
  c <> S754_nan /\ c <> S754_infinity false.
Proof.
  intros Hh H. split; intros ->.
  - destruct r; discriminate H.
  - destruct r as [sr|[|]| |sr mr er]; destruct hi as [sh|sh| |sh mh eh];
      try discriminate Hh; discriminate H.
Qed.

Lemma lower_test_finite (c r t : float) :
  is_finite t = true ->
  SFleb (SFopp t) (SFsub prec emax c r) = true ->
  c <> S754_infinity true.
Proof.
  intros Ht H ->.
  destruct r as [sr|[|]| |sr mr er]; destruct t as [st|st| |st mt et];
    try discriminate Ht; discriminate H.
Qed.

(** The script never places a hole at a NaN or an infinite coordinate: when
    [plate_length + tol] and [plate_width + tol] are finite, both
    coordinates of every accepted centre are finite. *)
Theorem accepted_centers_finite (P : Params float) (L : Layout float)
    (cx cy : float) :
  is_finite (fadd (plate_length P) (tol P)) = true ->
  is_finite (fadd (plate_width P) (tol P)) = true ->
  In (cx, cy) (hole_centers P L) ->
  is_finite cx = true /\ is_finite cy = true.
Proof.
  intros HL HW H. apply in_hole_centers in H. destruct H as [row [col [H E]]].
  apply in_hole_indices in H. destruct H as [_ H].
  pose proof (f_equal fst E) as Ex. pose proof (f_equal snd E) as Ey.
  cbn [fst snd] in Ex, Ey. subst cx cy. clear E.
  unfold boundary_check in H.
  repeat (apply andb_true_iff in H; destruct H as [H ?]).
  set (c := cx_of P L row col) in *. set (y := cy_of P L row) in *.
  clearbody c y.
  unfold x_low_ok, x_high_ok, y_low_ok, y_high_ok, fgeb in *.
  cbn [fleb fadd fsub fneg B64.num] in *.
  destruct (@finite_sum_parts _ _ HL) as [_ Ht].
  split.
  - destruct (@upper_test_finite _ _ _ HL H2) as [N I].
    pose proof (@lower_test_finite _ _ _ Ht H) as M.
    destruct c as [s|[|]| |s m e]; try reflexivity; congruence.
  - destruct (@upper_test_finite _ _ _ HW H0) as [N I].
    pose proof (@lower_test_finite _ _ _ Ht H1) as M.
    destruct y as [s|[|]| |s m e]; try reflexivity; congruence.
Qed.

End B64Edge.

(** ** Exact arithmetic: how many holes, and where *)

Module ExactGridFacts.

Import Exact ExactFacts Samples Stagger.
Local Open Scope Q_scope.

Lemma axis_count_floor (len d pitch : Q) :
  0 < pitch -> d <= len ->
  axis_count len d pitch = Some (Qfloor ((len - d) / pitch) + 1)%Z.
Proof.
  intros Hp Hd. unfold axis_count, py_div.
  rewrite (ltb_false Hd), (is_zero_false Hp).
  cbn [bind fdiv fsub to_int Exact.num].
  assert (Hq : 0 <= (len - d) / pitch)
    by (apply Qle_shift_div_l; [exact Hp | lra]).
  now rewrite (trunc_is_floor Hq).
Qed.

Lemma inject_Z_pred (n : Z) : inject_Z (n - 1) == inject_Z n - 1.
Proof.
  unfold Z.sub. rewrite inject_Z_plus. reflexivity.
Qed.

(** The count of an axis is the largest that fits: one more hole at the
    same pitch would pass the end of the plate, no larger count has a span
    within the plate, and the margin is below half a pitch. *)
Theorem count_is_maximal (len d pitch : Q) :
  0 < pitch -> d <= len ->
  exists n : Z,
    axis_count len d pitch = Some n
    /\ len < axis_span n d pitch + pitch
    /\ (forall n' : Z, inject_Z (n' - 1) * pitch + d <= len -> (n' <= n)%Z)
    /\ axis_margin len d pitch n < pitch / 2.
Proof.
  intros Hp Hd. exists (Qfloor ((len - d) / pitch) + 1)%Z.
  split; [now apply axis_count_floor|].
  set (q := (len - d) / pitch). set (n := (Qfloor q + 1)%Z).
  assert (Hq : 0 <= q) by (apply Qle_shift_div_l; [exact Hp | lra]).
  assert (H1 : (1 <= n)%Z).
  { pose proof (Qfloor_resp_le _ _ Hq) as K. change (Qfloor 0) with 0%Z in K.
    unfold n. lia. }
  assert (Hlt : q < inject_Z n) by (apply Qlt_floor).
  assert (E : q * pitch == len - d) by (unfold q; field; lra).
  assert (Hm : q * pitch < inject_Z n * pitch)
    by (apply Qmult_lt_compat_r; assumption).
  rewrite E in Hm.
  assert (Hs : len < axis_span n d pitch + pitch).
  { unfold axis_span. cbn [fadd fmul of_int Exact.num].
    rewrite inject_Z_pred. revert Hm. generalize (inject_Z n). intros a Hm.
    assert (Ex : (a - 1) * pitch == a * pitch - pitch) by ring.
    rewrite Ex. lra. }
  split; [exact Hs|]. split.
  - intros n' Hn'.
    assert (K : inject_Z (n' - 1) * pitch < inject_Z n * pitch) by lra.
    apply Qmult_lt_r in K; [|exact Hp].
    rewrite <- Zlt_Qlt in K. lia.
  - rewrite (axis_margin_fits len d pitch H1). revert Hs.
    generalize (axis_span n d pitch). intros s Hs. q_linear.
Qed.

Lemma range_succ (k : Z) : (0 <= k)%Z -> range (k + 1) = range k ++ [k].
Proof.
  intros Hk. unfold range.
  replace (Z.to_nat (k + 1)) with (S (Z.to_nat k)) by lia.
  rewrite seq_S, map_app. cbn [map Nat.add]. now rewrite Z2Nat.id.
Qed.

Lemma count_all {A : Type} (f : A -> bool) (l : list A) :
  (forall x, In x l -> f x = true) -> length (filter f l) = length l.
Proof.
  induction l as [|a l IH]; intros H; simpl; [reflexivity|].
  rewrite (H a (or_introl eq_refl)). simpl. f_equal. apply IH.
  intros x Hx. apply H. now right.
Qed.

Lemma count_except_last (n : Z) :
  (1 <= n)%Z ->
  length (filter (fun c => negb (c =? n - 1)%Z) (range n)) = Z.to_nat (n - 1).
Proof.
  intros Hn.
  assert (E : range n = range (n - 1) ++ [(n - 1)%Z]).
  { rewrite <- range_succ by lia. f_equal. lia. }
  rewrite E, filter_app, length_app.
  cbn [filter]. rewrite Z.eqb_refl. cbn [negb length].
  rewrite count_all, length_range; [lia|].
  intros x Hx. apply in_range in Hx. apply negb_true_iff, Z.eqb_neq. lia.
Qed.

Lemma filter_map_length {A B : Type} (f : B -> bool) (g : A -> B) (l : list A) :
  length (filter f (map g l)) = length (filter (fun x => f (g x)) l).
Proof.
  induction l as [|a l IH]; simpl; [reflexivity|].
  destruct (f (g a)); simpl; now rewrite IH.
Qed.

Lemma half_succ (k : Z) :
  (0 <= k)%Z -> ((k + 1) / 2 = k / 2 + (if k mod 2 =? 1 then 1 else 0))%Z.
Proof.
  intros Hk. pose proof (Z.div_mod k 2) as D.
  pose proof (Z.mod_pos_bound k 2 eq_refl) as B.
  destruct (Z.eqb_spec (k mod 2) 1) as [E|E].
  - symmetry. apply Z.div_unique with (r := 0%Z); lia.
  - symmetry. apply Z.div_unique with (r := 1%Z); lia.
Qed.

Section Grid.

Variable P : Params Q.
Variable L : Layout Q.
Hypothesis HL : layout P = Some L.
Hypothesis Hpx : 0 < pitch_x P.
Hypothesis Hpy : 0 < pitch_y P.
Hypothesis Htol : 0 <= tol P.
Hypothesis Hfx : hole_diameter P <= plate_length P.
Hypothesis Hfy : hole_diameter P <= plate_width P.

Lemma counts_positive : (1 <= n_cols L)%Z /\ (1 <= n_rows L)%Z.
Proof.
  destruct (layout_some P HL) as [Hc [Hr _]].
  destruct (axis_fits Hpx Hfx) as [n [Hn [H1 _]]].
  destruct (axis_fits Hpy Hfy) as [k [Hk [H2 _]]].
  rewrite Hc in Hn. rewrite Hr in Hk. injection Hn as <-. injection Hk as <-.
  split; assumption.
Qed.

Lemma margin_x_centres :
  margin_x L + (inject_Z (n_cols L - 1) * pitch_x P + hole_diameter P) + margin_x L
  == plate_length P.
Proof.
  destruct (layout_some P HL) as [_ [_ [Hm _]]].
  destruct counts_positive as [H1 _].
  rewrite Hm, (axis_margin_fits _ _ _ H1). unfold axis_span.
  cbn [fadd fmul of_int Exact.num]. field.
Qed.

Lemma margin_y_centres :
  margin_y L + (inject_Z (n_rows L - 1) * pitch_y P + hole_diameter P) + margin_y L
  == plate_width P.
Proof.
  destruct (layout_some P HL) as [_ [_ [_ Hm]]].
  destruct counts_positive as [_ H1].
  rewrite Hm, (axis_margin_fits _ _ _ H1). unfold axis_span.
  cbn [fadd fmul of_int Exact.num]. field.
Qed.

Lemma margin_x_nonneg : 0 <= margin_x L.
Proof.
  destruct (layout_some P HL) as [Hn [_ [Hm _]]].
  destruct counts_positive as [H1 _].
  assert (R : (0 <= 0 < n_cols L)%Z) by lia.
  destruct (axis_positions_inside Hpx Hfx Hn R) as [H0 _].
  now rewrite Hm.
Qed.

Lemma x_high_odd (row col : Z) :
  (0 <= col < n_cols L)%Z -> (row mod 2 = 1)%Z ->
  (x_high_ok P (cx_of P L row col) = true
   <-> (col < n_cols L - 1)%Z \/ pitch_x P / 2 <= margin_x L + tol P).
Proof.
  intros Hc Ho. pose proof margin_x_centres as C. pose proof margin_x_nonneg as M.
  unfold x_high_ok, cx_of, x_offset, hole_radius, lit_2_0, lit_0_0.
  rewrite Ho. cbn [Z.eqb Pos.eqb].
  cbn [fleb fsub fadd fneg fmul fdiv of_int Exact.num].
  rewrite Qle_bool_iff.
  destruct (Z.eq_dec col (n_cols L - 1)) as [->|Hne].
  - revert C. generalize (inject_Z (n_cols L - 1) * pitch_x P). intros b C.
    split.
    + intros H. right. q_linear.
    + intros [H|H]; [lia | q_linear].
  - assert (K : inject_Z col * pitch_x P
                <= inject_Z (n_cols L - 1) * pitch_x P - pitch_x P).
    { assert (E : inject_Z (n_cols L - 1) * pitch_x P - pitch_x P
                  == (inject_Z (n_cols L - 1) - 1) * pitch_x P) by ring.
      rewrite E, <- inject_Z_pred.
      apply Qmult_le_compat_r; [|lra]. rewrite <- Zle_Qle. lia. }
    revert C K.
    generalize (inject_Z (n_cols L - 1) * pitch_x P), (inject_Z col * pitch_x P).
    intros b a C K. split.
    + intros _. left. lia.
    + intros _. q_linear.
Qed.

(** The unstaggered grid is centred in the plate: in an even row the gap
    left of the first hole and the gap right of the last hole are both
    [margin_x], and the gaps below the first row and above the last row are
    both [margin_y]. *)
Theorem grid_is_centred (row : Z) :
  (row mod 2 = 0)%Z ->
  cx_of P L row 0 - hole_radius P == margin_x L
  /\ plate_length P - (cx_of P L row (n_cols L - 1) + hole_radius P) == margin_x L
  /\ cy_of P L 0 - hole_radius P == margin_y L
  /\ plate_width P - (cy_of P L (n_rows L - 1) + hole_radius P) == margin_y L.
Proof.
  intros He. pose proof margin_x_centres as Cx. pose proof margin_y_centres as Cy.
  unfold cx_of, cy_of, x_offset, hole_radius, lit_2_0, lit_0_0.
  rewrite He. cbn [Z.eqb].
  cbn [fleb fsub fadd fneg fmul fdiv of_int Exact.num].
  revert Cx Cy.
  generalize (inject_Z (n_cols L - 1) * pitch_x P),
             (inject_Z (n_rows L - 1) * pitch_y P).
  intros a b Cx Cy.
  assert (Z0 : forall x, inject_Z 0 * x == 0) by (intros x; ring).
  rewrite !Z0. repeat split; q_linear.
Qed.

(** A grid position is rejected exactly when it is the last column of an
    odd row and the margin and the tolerance together are less than half a
    pitch. *)
Theorem rejected_iff_last_staggered (row col : Z) :
  (0 <= row < n_rows L)%Z -> (0 <= col < n_cols L)%Z ->
  (boundary_check P (cx_of P L row col) (cy_of P L row) = false
   <-> (row mod 2 = 1)%Z /\ col = (n_cols L - 1)%Z
       /\ margin_x L + tol P < pitch_x P / 2).
Proof.
  intros Hr Hc. unfold boundary_check.
  destruct (@y_inside P L HL Hpy Htol Hfy row Hr) as [-> ->].
  rewrite (@x_inside_low P L HL Hpx Htol Hfx row col Hc).
  rewrite !andb_true_r. cbn [andb].
  pose proof (Z.mod_pos_bound row 2 eq_refl) as B.
  destruct (Z.eq_dec (row mod 2) 0) as [He|He].
  - rewrite (@x_inside_even P L HL Hpx Htol Hfx row col Hc He).
    split; [discriminate | lia].
  - assert (Ho : (row mod 2 = 1)%Z) by lia.
    pose proof (@x_high_odd row col Hc Ho) as X.
    destruct (x_high_ok P (cx_of P L row col)).
    + split; [discriminate|]. intros [_ [E K]].
      destruct (proj1 X eq_refl) as [H|H]; [lia | lra].
    + split; [|reflexivity]. intros _. split; [exact Ho|].
      destruct (Z.eq_dec col (n_cols L - 1)) as [E|E].
      * split; [exact E|].
        destruct (Qlt_le_dec (margin_x L + tol P) (pitch_x P / 2)) as [K|K];
          [exact K|].
        assert (T : false = true) by (apply X; now right). discriminate T.
      * assert (T : false = true) by (apply X; left; lia). discriminate T.
Qed.

Lemma accepts_spec (row col : Z) :
  (0 <= row < n_rows L)%Z -> (0 <= col < n_cols L)%Z ->
  accepts P L (row, col)
  = negb ((row mod 2 =? 1)%Z && (col =? n_cols L - 1)%Z && staggered_end_rejected P L).
Proof.
  intros Hr Hc. unfold accepts, boundary_check, staggered_end_rejected.
  cbn [fst snd].
  destruct (@y_inside P L HL Hpy Htol Hfy row Hr) as [-> ->].
  rewrite (@x_inside_low P L HL Hpx Htol Hfx row col Hc).
  rewrite !andb_true_r. cbn [andb].
  pose proof (Z.mod_pos_bound row 2 eq_refl) as B.
  destruct (Z.eqb_spec (row mod 2) 1) as [Ho|Ho].
  - pose proof (@x_high_odd row col Hc Ho) as X. cbn [andb].
    destruct (Z.eqb_spec col (n_cols L - 1)) as [E|E]; cbn [andb].
    + destruct (Qle_bool (pitch_x P / 2) (margin_x L + tol P)) eqn:K; cbn [negb].
      * apply X. right. now apply Qle_bool_iff.
      * destruct (x_high_ok P (cx_of P L row col)); [|reflexivity].
        destruct (proj1 X eq_refl) as [H|H]; [lia|].
        apply Qle_bool_iff in H. congruence.
    + cbn [negb]. apply X. left. lia.
  - cbn [andb negb].
    apply (@x_inside_even P L HL Hpx Htol Hfx row col Hc). lia.
Qed.

Lemma row_count (row : Z) :
  (0 <= row < n_rows L)%Z ->
  Z.of_nat (length (filter (accepts P L)
                      (map (fun col => (row, col)) (range (n_cols L)))))
  = (n_cols L
     - (if (row mod 2 =? 1)%Z && staggered_end_rejected P L then 1 else 0))%Z.
Proof.
  intros Hr. destruct counts_positive as [H1 _]. rewrite filter_map_length.
  rewrite (filter_ext_in _
             (fun col => negb ((row mod 2 =? 1)%Z && (col =? n_cols L - 1)%Z
                               && staggered_end_rejected P L)));
    [|intros col Hcol; apply in_range in Hcol; now apply accepts_spec].
  destruct ((row mod 2 =? 1)%Z) ; destruct (staggered_end_rejected P L); cbn [andb].
  - rewrite (filter_ext _ (fun c => negb (c =? n_cols L - 1)%Z));
      [|intros c; now rewrite andb_true_r].
    rewrite count_except_last by lia. lia.
  - rewrite count_all, length_range; [lia|].
    intros c _. now rewrite andb_false_r.
  - rewrite count_all, length_range; [lia | reflexivity].
  - rewrite count_all, length_range; [lia | reflexivity].
Qed.

Lemma rows_count (k : Z) :
  (0 <= k)%Z -> (k <= n_rows L)%Z ->
  Z.of_nat (length (filter (accepts P L)
                      (flat_map (fun row => map (fun col => (row, col))
                                              (range (n_cols L)))
                                (range k))))
  = (k * n_cols L - (if staggered_end_rejected P L then k / 2 else 0))%Z.
Proof.
  intros Hk. pattern k. apply natlike_ind; [| |exact Hk].
  - intros _. cbn. now destruct (staggered_end_rejected P L).
  - clear k Hk. intros k Hk IH Hle.
    change (Z.succ k) with (k + 1)%Z.
    rewrite range_succ, flat_map_app, filter_app, length_app by lia.
    cbn [flat_map]. rewrite app_nil_r, Nat2Z.inj_add, IH, row_count by lia.
    rewrite (half_succ Hk).
    destruct ((k mod 2 =? 1)%Z); destruct (staggered_end_rejected P L); cbn [andb]; lia.
Qed.

(** The number of holes: all [n_rows * n_cols] positions, less one per odd
    row when the last staggered column does not fit, that is when
    [pitch_x / 2 > margin_x + tol]. *)
Theorem hole_count :
  Z.of_nat (length (hole_centers P L))
  = (n_rows L * n_cols L
     - (if staggered_end_rejected P L then n_rows L / 2 else 0))%Z.
Proof.
  destruct counts_positive as [_ H1].
  unfold hole_centers. rewrite hole_loop_filter, length_map.
  unfold grid_positions. now rewrite rows_count by lia.
Qed.

End Grid.

Lemma sorted_nodup {A : Type} (R : A -> A -> Prop) (l : list A) :
  (forall x, ~ R x x) -> StronglySorted R l -> NoDup l.
Proof.
  intros Irr. induction 1 as [|a l S IH Fa]; constructor; [|exact IH].
  intros Hin. rewrite Forall_forall in Fa. exact (Irr a (Fa a Hin)).
Qed.

(** Two grid positions with numerically equal centres are the same
    position, so no two holes of the sheet share a centre. *)
Theorem centres_distinct (P : Params Q) (L : Layout Q) :
  0 < pitch_x P -> 0 < pitch_y P ->
  (forall r1 c1 r2 c2 : Z,
     cx_of P L r1 c1 == cx_of P L r2 c2 ->
     cy_of P L r1 == cy_of P L r2 ->
     r1 = r2 /\ c1 = c2)
  /\ NoDup (hole_centers P L).
Proof.
  intros Hx Hy.
  assert (Inj : forall r1 c1 r2 c2 : Z,
            cx_of P L r1 c1 == cx_of P L r2 c2 ->
            cy_of P L r1 == cy_of P L r2 -> r1 = r2 /\ c1 = c2).
  { intros r1 c1 r2 c2 Ex Ey.
    assert (Er : r1 = r2).
    { unfold cy_of in Ey. cbn [fadd fmul of_int Exact.num] in Ey.
      apply inject_Z_injective.
      apply (Qmult_inj_r _ _ (pitch_y P)); [lra|].
      revert Ey.
      generalize (inject_Z r1 * pitch_y P), (inject_Z r2 * pitch_y P).
      intros a b Ey. lra. }
    subst r2. split; [reflexivity|].
    unfold cx_of in Ex. cbn [fadd fmul of_int Exact.num] in Ex.
    apply inject_Z_injective.
    apply (Qmult_inj_r _ _ (pitch_x P)); [lra|].
    revert Ex.
    generalize (inject_Z c1 * pitch_x P), (inject_Z c2 * pitch_x P),
               (x_offset P r1).
    intros a b o Ex. lra. }
  split; [exact Inj|].
  unfold hole_centers. rewrite hole_loop_indices.
  apply NoDup_map_NoDup_ForallPairs.
  - intros [r1 c1] [r2 c2] _ _ E. unfold at_pos in E. cbn [fst snd] in E.
    pose proof (f_equal fst E) as Ex. pose proof (f_equal snd E) as Ey.
    cbn [fst snd] in Ex, Ey.
    destruct (Inj r1 c1 r2 c2) as [-> ->];
      [rewrite Ex | rewrite Ey |]; reflexivity.
  - rewrite hole_indices_filter. apply NoDup_filter.
    apply (sorted_nodup (R := row_major)); [|apply sorted_grid_positions].
    intros [r c] [H|[_ H]]; cbn [fst snd] in H; lia.
Qed.

(** With a negative pitch and a hole that fits the script does not fail:
    the quotient is not positive, [int] truncates it towards zero, and the
    count is at most 1, so there is at most one column. *)
Theorem negative_pitch_single_column (len d pitch : Q) :
  pitch < 0 -> d <= len ->
  exists n : Z,
    axis_count len d pitch = Some n
    /\ (n <= 1)%Z
    /\ (length (range n) <= 1)%nat.
Proof.
  intros Hp Hd. unfold axis_count, py_div. rewrite (ltb_false Hd).
  assert (Hz : fis_zero pitch = false).
  { cbn [fis_zero Exact.num]. destruct (Qeq_bool pitch 0) eqn:E; [|reflexivity].
    apply Qeq_bool_iff in E. lra. }
  rewrite Hz. cbn [bind fdiv fsub to_int Exact.num]. unfold Exact.trunc.
  cbn [bind].
  set (q := (len - d) / pitch).
  assert (Hq : q <= 0).
  { destruct (Qlt_le_dec 0 q) as [K|K]; [|exact K]. exfalso.
    assert (E : q * (- pitch) == - (len - d)) by (unfold q; field; lra).
    assert (M : 0 < q * (- pitch)) by (apply Qmult_lt_0_compat; lra).
    lra. }
  assert (Hn : (Qnum q <= 0)%Z).
  { destruct q as [a b]. unfold Qle in Hq. cbn [Qnum Qden] in *. lia. }
  assert (Hk : (Qnum q ÷ Zpos (Qden q) <= 0)%Z).
  { replace (Qnum q) with (- - Qnum q)%Z by lia.
    rewrite Z.quot_opp_l by lia.
    assert (0 <= (- Qnum q) ÷ Zpos (Qden q))%Z by (apply Z.quot_pos; lia).
    lia. }
  eexists. split; [reflexivity|]. split; [lia|].
  rewrite length_range. lia.
Qed.

End ExactGridFacts.

(** ** The vertices of the hexagons *)

Module HexagonFacts.

Import Exact ExactFacts Hexagon Samples.
Local Open Scope Q_scope.

Lemma hexagon_points_vertices {F : Type} {N : PyNum F}
    (radians cos sin : F -> F) (cx cy radius : F) :
  hexagon_points radians cos sin cx cy radius
  = map (hexagon_vertex radians cos sin cx cy radius)
        [0; 60; 120; 180; 240; 300; 360]%Z.
Proof. reflexivity. Qed.

Lemma rat_cos_bounds (t : Q) : -1 <= rat_cos t <= 1.
Proof.
  unfold rat_cos.
  assert (H : 0 <= t * t) by (destruct (Qlt_le_dec t 0); nra).
  split.
  - apply Qle_shift_div_l; lra.
  - apply Qle_shift_div_r; lra.
Qed.

Lemma rat_sin_bounds (t : Q) : -1 <= rat_sin t <= 1.
Proof.
  unfold rat_sin.
  assert (H : 0 <= t * t) by (destruct (Qlt_le_dec t 0); nra).
  assert (H1 : 0 <= (1 - t) * (1 - t)) by (destruct (Qlt_le_dec (1 - t) 0); nra).
  assert (H2 : 0 <= (1 + t) * (1 + t)) by (destruct (Qlt_le_dec (1 + t) 0); nra).
  split.
  - apply Qle_shift_div_l; [lra|]. nra.
  - apply Qle_shift_div_r; [lra|]. nra.
Qed.

Section Vertices.

Variable radians : Q -> Q.
Variable cos : Q -> Q.
Variable sin : Q -> Q.

(** In exact arithmetic, when [cos] and [sin] stay within [-1, 1] and the
    hole diameter is not negative, every vertex of every hole the script
    builds lies within the plate widened by the tolerance, in the plane
    [z = 0]; and the solids are the extrusions of these polygons by the
    plate thickness. *)
Theorem hexagons_within_plate (P : Params Q) (L : Layout Q) :
  (forall a, -1 <= cos a <= 1) -> (forall a, -1 <= sin a <= 1) ->
  0 <= hole_diameter P ->
  (forall (pts : list (Q * Q * Q)) (x y z : Q),
     In pts (sheet_vertices radians cos sin P L) -> In (x, y, z) pts ->
     - tol P <= x <= plate_length P + tol P
     /\ - tol P <= y <= plate_width P + tol P
     /\ z == 0)
  /\ (forall (Wire Face Shape : Type) (makePolygon : list (Q * Q * Q) -> Wire)
        (makeFace : Wire -> Face) (extrude : Face -> Q * Q * Q -> Shape),
        hole_tools (make_hexagon_hole radians cos sin makePolygon makeFace extrude)
                   P L
        = map (fun pts => extrude (makeFace (makePolygon pts))
                                  (lit_0_0, lit_0_0, plate_thickness P))
              (sheet_vertices radians cos sin P L)).
Proof.
  intros Hc Hs Hd. split.
  - intros pts x y z Hp Hv. unfold sheet_vertices in Hp.
    rewrite hole_loop_indices in Hp. apply in_map_iff in Hp.
    destruct Hp as [[row col] [E Hi]]. apply in_hole_indices in Hi.
    destruct Hi as [_ Hb]. unfold at_pos in E. cbn [fst snd] in E. subst pts.
    rewrite hexagon_points_vertices in Hv. apply in_map_iff in Hv.
    destruct Hv as [a [E _]].
    unfold boundary_check in Hb.
    repeat (apply andb_true_iff in Hb; destruct Hb as [Hb ?]).
    unfold x_low_ok, x_high_ok, y_low_ok, y_high_ok, fgeb in *.
    cbn [fleb fadd fsub fneg Exact.num] in *.
    rewrite Qle_bool_iff in *.
    assert (Hr : 0 <= hole_radius P).
    { unfold hole_radius, lit_2_0. cbn [fdiv of_int Exact.num]. q_linear. }
    revert E Hb H H0 H1 Hr.
    generalize (hole_radius P), (cx_of P L row col), (cy_of P L row).
    intros r cx cy E Hxl Hyh Hyl Hxh Hr.
    unfold hexagon_vertex in E. cbn [fadd fmul of_int Exact.num] in E.
    specialize (Hc (radians (inject_Z a))). specialize (Hs (radians (inject_Z a))).
    revert E Hc Hs.
    generalize (cos (radians (inject_Z a))), (sin (radians (inject_Z a))).
    intros c s E Hc Hs. injection E as <- <- <-.
    assert (C1 : 0 <= r * (1 - c)) by (apply Qmult_le_0_compat; lra).
    assert (C2 : 0 <= r * (1 + c)) by (apply Qmult_le_0_compat; lra).
    assert (S1 : 0 <= r * (1 - s)) by (apply Qmult_le_0_compat; lra).
    assert (S2 : 0 <= r * (1 + s)) by (apply Qmult_le_0_compat; lra).
    assert (Ec1 : r * (1 - c) == r - r * c) by ring.
    assert (Ec2 : r * (1 + c) == r + r * c) by ring.
    assert (Es1 : r * (1 - s) == r - r * s) by ring.
    assert (Es2 : r * (1 + s) == r + r * s) by ring.
    rewrite Ec1 in C1. rewrite Ec2 in C2. rewrite Es1 in S1. rewrite Es2 in S2.
    revert C1 C2 S1 S2. generalize (r * c), (r * s). intros rc rs C1 C2 S1 S2.
    repeat split; lra.
  - intros Wire Face Shape makePolygon makeFace extrude.
    unfold hole_tools, sheet_vertices. rewrite !hole_loop_filter, map_map.
    reflexivity.
Qed.

End Vertices.

End HexagonFacts.

(** ** The further properties on the script's constants and on edge inputs *)

Module Instances.

Import B64 B64Facts B64Edge Exact ExactFacts ExactGridFacts Hexagon HexagonFacts
       Samples Stagger.

Lemma hole_count_full_iff_all_pass_witness :
  boundary_check script_params (cx_of script_params script_layout 1 9)
                 (cy_of script_params script_layout 1) = false
  /\ length (hole_centers script_params script_layout)
     <> (Z.to_nat (n_rows script_layout) * Z.to_nat (n_cols script_layout))%nat.
Proof.
  assert (H : boundary_check script_params (cx_of script_params script_layout 1 9)
                (cy_of script_params script_layout 1) = false)
    by (vm_compute; reflexivity).
  split; [exact H|]. intros E.
  assert (R : 0 <= 1 < n_rows script_layout) by (cbn; lia).
  assert (C : 0 <= 9 < n_cols script_layout) by (cbn; lia).
  pose proof (proj1 (proj2 (@hole_count_full_iff_all_pass float B64.num
                              script_params script_layout)) E 1 9 R C) as K.
  rewrite H in K. discriminate K.
Defined.

Lemma enumeration_complete_witness :
  boundary_check script_params (cx_of script_params script_layout 0 0)
                 (cy_of script_params script_layout 0) = true
  /\ In (dec 50 1, dec 50 1) (hole_centers script_params script_layout).
Proof.
  assert (H : boundary_check script_params (cx_of script_params script_layout 0 0)
                (cy_of script_params script_layout 0) = true)
    by (vm_compute; reflexivity).
  split; [exact H|].
  assert (R : 0 <= 0 < n_rows script_layout) by (cbn; lia).
  assert (C : 0 <= 0 < n_cols script_layout) by (cbn; lia).
  exact (@enumeration_complete float B64.num script_params script_layout 0 0 R C H).
Defined.

Lemma zero_pitch_raises_witness :
  let P := {| plate_length := dec 1000 1; plate_width := dec 500 1;
              plate_thickness := dec 20 1; hole_diameter := dec 50 1;
              pitch_x := S754_zero false; pitch_y := dec 100 1;
              tol := dec 1 6 |} in
  fltb (plate_length P) (hole_diameter P) = false
  /\ fis_zero (pitch_x P) = true
  /\ layout P = None.
Proof.
  intros P. split; [reflexivity|]. split; [reflexivity|].
  exact (proj1 (@zero_pitch_raises float B64.num P) eq_refl eq_refl).
Defined.

Lemma no_rows_no_holes_witness :
  let P := {| plate_length := dec 1000 1; plate_width := dec 30 1;
              plate_thickness := dec 20 1; hole_diameter := dec 50 1;
              pitch_x := dec 100 1; pitch_y := dec 100 1; tol := dec 1 6 |} in
  let L := {| n_cols := 10; margin_x := dec 25 1;
              n_rows := 0; margin_y := dec 15 1 |} in
  fltb (plate_width P) (hole_diameter P) = true
  /\ layout P = Some L
  /\ hole_centers P L = [].
Proof.
  intros P L.
  assert (E : layout P = Some L) by (vm_compute; reflexivity).
  split; [reflexivity|]. split; [exact E|].
  exact (proj2 (proj2 (proj2 (proj2 (@no_rows_no_holes float B64.num P eq_refl)
                                 L E)))).
Defined.

Lemma int_raises_iff_not_finite_witness :
  let len := S754_finite false 9007199254740991 971 in
  let d := dec 10 1 in
  let pitch := S754_finite false 1 (-1074) in
  fltb len d = false
  /\ is_zero pitch = false
  /\ is_finite (fdiv (fsub len d) pitch) = false
  /\ axis_count len d pitch = None.
Proof.
  intros len d pitch.
  assert (H : is_finite (fdiv (fsub len d) pitch) = false)
    by (vm_compute; reflexivity).
  split; [reflexivity|]. split; [reflexivity|]. split; [exact H|].
  exact (proj2 (@int_raises_iff_not_finite len d pitch eq_refl eq_refl) H).
Defined.

Lemma accepted_centers_finite_witness :
  is_finite (fadd (plate_length script_params) (tol script_params)) = true
  /\ In (dec 50 1, dec 50 1) (hole_centers script_params script_layout)
  /\ is_finite (dec 50 1) = true.
Proof.
  assert (H : In (dec 50 1, dec 50 1) (hole_centers script_params script_layout))
    by (vm_compute; left; reflexivity).
  split; [reflexivity|]. split; [exact H|].
  exact (proj1 (@accepted_centers_finite script_params script_layout _ _
                  eq_refl eq_refl H)).
Defined.

Lemma count_is_maximal_witness :
  (0 < 10)%Q /\ (5 <= 100)%Q
  /\ exists n : Z,
       axis_count 100%Q 5%Q 10%Q = Some n
       /\ (100 < axis_span n 5 10 + 10)%Q
       /\ (forall n' : Z, (inject_Z (n' - 1) * 10 + 5 <= 100)%Q -> n' <= n)
       /\ (axis_margin 100 5 10 n < 10 / 2)%Q.
Proof.
  assert (H : (5 <= 100)%Q) by (vm_compute; discriminate).
  split; [reflexivity|]. split; [exact H|].
  exact (@count_is_maximal 100%Q 5%Q 10%Q eq_refl H).
Defined.

Lemma exact_script_facts :
  layout exact_script_params = Some exact_script_layout
  /\ (0 < pitch_x exact_script_params)%Q
  /\ (0 < pitch_y exact_script_params)%Q
  /\ (0 <= tol exact_script_params)%Q
  /\ (hole_diameter exact_script_params <= plate_length exact_script_params)%Q
  /\ (hole_diameter exact_script_params <= plate_width exact_script_params)%Q.
Proof.
  split; [vm_compute; reflexivity|]. split; [reflexivity|].
  split; [reflexivity|]. repeat split; vm_compute; discriminate.
Defined.

Lemma grid_is_centred_witness :
  layout exact_script_params = Some exact_script_layout
  /\ (cx_of exact_script_params exact_script_layout 0 0
      - hole_radius exact_script_params == 5 # 2)%Q
  /\ (plate_length exact_script_params
      - (cx_of exact_script_params exact_script_layout 0 (10 - 1)
         + hole_radius exact_script_params) == 5 # 2)%Q.
Proof.
  destruct exact_script_facts as [E [Hx [Hy [Ht [Fx Fy]]]]].
  split; [exact E|].
  destruct (@grid_is_centred exact_script_params exact_script_layout
              E Hx Hy Fx Fy 0 eq_refl) as [A [B _]].
  split; [exact A | exact B].
Defined.

Lemma rejected_iff_last_staggered_witness :
  layout exact_script_params = Some exact_script_layout
  /\ (margin_x exact_script_layout + tol exact_script_params
      < pitch_x exact_script_params / 2)%Q
  /\ boundary_check exact_script_params
       (cx_of exact_script_params exact_script_layout 1 9)
       (cy_of exact_script_params exact_script_layout 1) = false.
Proof.
  destruct exact_script_facts as [E [Hx [Hy [Ht [Fx Fy]]]]].
  assert (K : (margin_x exact_script_layout + tol exact_script_params
               < pitch_x exact_script_params / 2)%Q) by reflexivity.
  split; [exact E|]. split; [exact K|].
  assert (R : 0 <= 1 < n_rows exact_script_layout) by (cbn; lia).
  assert (C : 0 <= 9 < n_cols exact_script_layout) by (cbn; lia).
  apply (proj2 (@rejected_iff_last_staggered exact_script_params
                  exact_script_layout E Hx Hy Ht Fx Fy 1 9 R C)).
  split; [reflexivity|]. split; [reflexivity | exact K].
Defined.

Lemma hole_count_witness :
  layout exact_script_params = Some exact_script_layout
  /\ staggered_end_rejected exact_script_params exact_script_layout = true
  /\ Z.of_nat (length (hole_centers exact_script_params exact_script_layout))
     = 5 * 10 - 5 / 2.
Proof.
  destruct exact_script_facts as [E [Hx [Hy [Ht [Fx Fy]]]]].
  split; [exact E|]. split; [reflexivity|].
  exact (@hole_count exact_script_params exact_script_layout E Hx Hy Ht Fx Fy).
Defined.

Lemma centres_distinct_witness :
  (0 < pitch_x exact_script_params)%Q
  /\ NoDup (hole_centers exact_script_params exact_script_layout).
Proof.
  split; [reflexivity|].
  exact (proj2 (@centres_distinct exact_script_params exact_script_layout
                  eq_refl eq_refl)).
Defined.

Lemma negative_pitch_single_column_witness :
  (-10 < 0)%Q /\ (5 <= 100)%Q
  /\ axis_count 100%Q 5%Q (-10)%Q = Some (-8)
  /\ exists n : Z, axis_count 100%Q 5%Q (-10)%Q = Some n /\ n <= 1
                   /\ (length (range n) <= 1)%nat.
Proof.
  assert (H : (5 <= 100)%Q) by (vm_compute; discriminate).
  split; [reflexivity|]. split; [exact H|]. split; [vm_compute; reflexivity|].
  exact (@negative_pitch_single_column 100%Q 5%Q (-10)%Q eq_refl H).
Defined.

Lemma hexagons_within_plate_witness :
  (0 <= hole_diameter exact_script_params)%Q
  /\ forall (pts : list (Q * Q * Q)) (x y z : Q),
       In pts (sheet_vertices rat_radians rat_cos rat_sin
                 exact_script_params exact_script_layout) ->
       In (x, y, z) pts ->
       (- tol exact_script_params <= x
        <= plate_length exact_script_params + tol exact_script_params)%Q
       /\ (- tol exact_script_params <= y
           <= plate_width exact_script_params + tol exact_script_params)%Q
       /\ (z == 0)%Q.
Proof.
  assert (H : (0 <= hole_diameter exact_script_params)%Q)
    by (vm_compute; discriminate).
  split; [exact H|].
  exact (proj1 (@hexagons_within_plate rat_radians rat_cos rat_sin
                  exact_script_params exact_script_layout
                  rat_cos_bounds rat_sin_bounds H)).
Defined.

End Instances.
